(** * Gopher: concurrent URL liveness checker

    A shallow embedding of [py.py]: the coroutines [check_url],
    [process_row] (the closure inside [check_urls]), [check_urls] and
    [process_csv], together with the asyncio machinery they rely on
    (a counting semaphore, [asyncio.gather], the event loop's interleaving
    of tasks at their suspension points).

    Coroutines are finite trees of suspension points and effects; the
    event loop is a step function that resumes one task at a time.  The
    order in which the loop resumes tasks (the schedule) and the answers of
    the network are inputs of the model: statements quantify over them.
    The loop may resume a task at any node, also between two statements
    that asyncio runs without suspension, so the runs of the model include
    all those of asyncio. *)

From Stdlib Require Import ZArith QArith.
From stdpp Require Import base list strings.

Local Open Scope list_scope.

(** ** Module constants of [py.py] *)

Definition input_file : string := "data.csv".
Definition good_file : string := "good.csv".
Definition bad_file : string := "bad.csv".

(** Seconds; the total timeout of the session.  A request that exceeds it
    is answered by the exception [TimeoutError]. *)
Definition http_timeout : Z := 10%Z.
Definition max_concurrency : nat := 500.
(** [request_delay = 0.1] (seconds). *)
Definition request_delay : Q := Qmake 1 10.

(** The column label that [process_row] and [process_csv] look up. *)
Definition URL_COLUMN : string := "发布链接".
Definition MSG_NO_COLUMN : string := "没有找到发布链接列".
Definition MSG_DONE : string :=
  "处理完毕，生成文件：" +:+ good_file +:+ " 和 " +:+ bad_file.

(** ** Data: pandas frames and rows *)

(** A cell of the table: text, or the missing value pandas pads with. *)
Inductive cell : Type :=
| Str (s : string)
| NaN.

#[global] Instance cell_eq_dec : EqDecision cell.
Proof. solve_decision. Defined.

(** A [pd.Series] produced by [df.iterrows()]: its [name] is the index
    label of the row (the row position, for a frame read by [read_csv]),
    its [items] are the labelled values, in column order. *)
Record Row : Type := mkRow {
  name : nat;
  items : list (string * cell)
}.

#[global] Instance Row_eq_dec : EqDecision Row.
Proof. solve_decision. Defined.

Record DataFrame : Type := mkDataFrame {
  columns : list string;
  data : list (list cell)
}.

(** [row] of position [i]: every column of the frame gets a value. *)
Definition series_of (cols : list string) (i : nat) (cells : list cell) : Row :=
  mkRow i (imap (fun j c => (c, default NaN (cells !! j))) cols).

(** [df.iterrows()], without the index component that the caller drops. *)
Definition iterrows (df : DataFrame) : list Row :=
  imap (series_of (columns df)) (data df).

(** ** Exceptions and outcomes *)

Inductive exn : Type :=
| KeyError (label : string)
| TimeoutError
| ClientConnectorError
| ClientConnectorDNSError
| InvalidURL
| ClientError
| OtherError (what : string).

Inductive outcome (A : Type) : Type :=
| Return (a : A)
| Raised (e : exn).
Arguments Return {A} a.
Arguments Raised {A} e.

(** [row[label]]: the value with that label, [KeyError] if there is none
    (the labels of a frame read by [read_csv] are distinct). *)
Fixpoint assoc (label : string) (kvs : list (string * cell)) : option cell :=
  match kvs with
  | [] => None
  | (k, v) :: rest => if decide (k = label) then Some v else assoc label rest
  end.

Definition getitem (row : Row) (label : string) : outcome cell :=
  match assoc label (items row) with
  | Some v => Return v
  | None => Raised (KeyError label)
  end.

(** What awaiting [session.get(url)] gives: a response, of which the code
    reads only [status], or an exception (the timeout of the session,
    a connection or DNS failure, a malformed URL, ...). *)
Record ClientResponse : Type := mkResponse { status : Z }.

Definition http_answer : Type := outcome ClientResponse.

(** ** Coroutines *)

(** A coroutine that returns an [A]: a tree whose nodes are the awaits and
    the effects of the source, whose leaves are [return] and [raise].

    A task stands at a node until the loop resumes it.  At [Acquire] it
    waits for a permit; at [Get] it is about to send its request; at
    [Response] the request is in flight and the task is suspended until
    the answer is there; at [Sleep] it waits out the delay
    ([asyncio.sleep] with a constant delay raises only if its task is
    cancelled, and nothing in the file cancels a task). *)
Inductive coro (A : Type) : Type :=
| Ret (a : A)
| Raise (e : exn)
| Acquire (k : coro A)                  (* await semaphore.acquire() *)
| Release (k : coro A)                  (* semaphore.release() *)
| Get (url : cell) (k : coro A)         (* session.get(url): request sent *)
| Response (k : http_answer -> coro A)  (* ... and awaited *)
| Sleep (d : Q) (k : coro A)            (* await asyncio.sleep(d) *)
| AppendGood (row : Row) (k : coro A)   (* good_rows.append(row) *)
| AppendBad (row : Row) (k : coro A).   (* bad_rows.append(row) *)
Arguments Ret {A} a.
Arguments Raise {A} e.
Arguments Acquire {A} k.
Arguments Release {A} k.
Arguments Get {A} url k.
Arguments Response {A} k.
Arguments Sleep {A} d k.
Arguments AppendGood {A} row k.
Arguments AppendBad {A} row k.

(** [x = await c; f x] *)
Fixpoint bind {A B : Type} (c : coro A) (f : A -> coro B) : coro B :=
  match c with
  | Ret a => f a
  | Raise e => Raise e
  | Acquire k => Acquire (bind k f)
  | Release k => Release (bind k f)
  | Get url k => Get url (bind k f)
  | Response k => Response (fun ans => bind (k ans) f)
  | Sleep d k => Sleep d (bind k f)
  | AppendGood row k => AppendGood row (bind k f)
  | AppendBad row k => AppendBad row (bind k f)
  end.

(** [try: c  except: h]  (a bare [except] catches every exception). *)
Fixpoint try_except {A : Type} (c : coro A) (h : exn -> coro A) : coro A :=
  match c with
  | Ret a => Ret a
  | Raise e => h e
  | Acquire k => Acquire (try_except k h)
  | Release k => Release (try_except k h)
  | Get url k => Get url (try_except k h)
  | Response k => Response (fun ans => try_except (k ans) h)
  | Sleep d k => Sleep d (try_except k h)
  | AppendGood row k => AppendGood row (try_except k h)
  | AppendBad row k => AppendBad row (try_except k h)
  end.

(** The exit of [async with semaphore]: release, then leave the block the
    way the body left it. *)
Fixpoint releasing {A : Type} (body : coro A) : coro A :=
  match body with
  | Ret a => Release (Ret a)
  | Raise e => Release (Raise e)
  | Acquire k => Acquire (releasing k)
  | Release k => Release (releasing k)
  | Get url k => Get url (releasing k)
  | Response k => Response (fun ans => releasing (k ans))
  | Sleep d k => Sleep d (releasing k)
  | AppendGood row k => AppendGood row (releasing k)
  | AppendBad row k => AppendBad row (releasing k)
  end.

(** [async with semaphore: body] *)
Definition async_with_semaphore {A : Type} (body : coro A) : coro A :=
  Acquire (releasing body).

(** [async with session.get(url) as response: body]: an exception of the
    request leaves the block before the body runs. *)
Definition async_with_get {A : Type} (url : cell)
    (body : ClientResponse -> coro A) : coro A :=
  Get url (Response (fun ans =>
    match ans with
    | Return response => body response
    | Raised e => Raise e
    end)).

(** ** [check_url] *)

Definition check_url (url : cell) : coro bool :=
  async_with_semaphore
    (try_except
       (async_with_get url (fun response =>
          Sleep request_delay
            (Ret ((200 <=? status response)%Z && (status response <? 300)%Z))))
       (fun _ => Ret false)).

(** ** [process_row], the closure of [check_urls] *)

Definition process_row (row : Row) : coro unit :=
  match getitem row URL_COLUMN with
  | Raised e => Raise e
  | Return url =>
      bind (check_url url) (fun is_valid =>
        if is_valid then AppendGood row (Ret tt) else AppendBad row (Ret tt))
  end.

(** ** Events *)

Inductive event : Type :=
| EvAcquire
| EvRelease
| EvGet (url : cell)
| EvAnswer (ans : http_answer)
| EvSleep (d : Q)
| EvAppendGood (row : Row)
| EvAppendBad (row : Row)
| EvReadCsv (file : string)
| EvWriteCsv (file : string) (rows : list Row)
| EvPrint (msg : string).

(** ** One coroutine run on its own

    The permit is granted as soon as it is asked for and the network gives
    [ans]; the result is the list of events in the order they happen and
    the way the coroutine ends. *)
Fixpoint run_coro {A : Type} (ans : http_answer) (c : coro A)
    : list event * outcome A :=
  match c with
  | Ret a => ([], Return a)
  | Raise e => ([], Raised e)
  | Acquire k => let '(t, r) := run_coro ans k in (EvAcquire :: t, r)
  | Release k => let '(t, r) := run_coro ans k in (EvRelease :: t, r)
  | Get url k => let '(t, r) := run_coro ans k in (EvGet url :: t, r)
  | Response k =>
      let '(t, r) := run_coro ans (k ans) in (EvAnswer ans :: t, r)
  | Sleep d k => let '(t, r) := run_coro ans k in (EvSleep d :: t, r)
  | AppendGood row k =>
      let '(t, r) := run_coro ans k in (EvAppendGood row :: t, r)
  | AppendBad row k =>
      let '(t, r) := run_coro ans k in (EvAppendBad row :: t, r)
  end.

(** ** The event loop

    [asyncio.gather] wraps every coroutine in a task.  A task is a
    coroutine suspended somewhere in its tree, or a finished one; [held]
    counts the permits it has acquired and not released. *)
Inductive phase : Type :=
| Running (c : coro unit)
| Finished (r : outcome unit).

Record task : Type := mkTask {
  held : nat;
  phase_of : phase
}.

Record loop_state : Type := mkState {
  sem_value : nat;                (* semaphore._value *)
  tasks : list task;
  good_rows : list Row;
  bad_rows : list Row;
  first_exception : option exn;   (* the exception gather re-raises *)
  trace : list event
}.

Definition set_task (i : nat) (t : task) (st : loop_state) : loop_state :=
  mkState (sem_value st) (<[i := t]> (tasks st)) (good_rows st) (bad_rows st)
          (first_exception st) (trace st).

Definition set_sem (v : nat) (st : loop_state) : loop_state :=
  mkState v (tasks st) (good_rows st) (bad_rows st)
          (first_exception st) (trace st).

Definition push_good (row : Row) (st : loop_state) : loop_state :=
  mkState (sem_value st) (tasks st) (good_rows st ++ [row]) (bad_rows st)
          (first_exception st) (trace st).

Definition push_bad (row : Row) (st : loop_state) : loop_state :=
  mkState (sem_value st) (tasks st) (good_rows st) (bad_rows st ++ [row])
          (first_exception st) (trace st).

Definition note_exception (e : exn) (st : loop_state) : loop_state :=
  mkState (sem_value st) (tasks st) (good_rows st) (bad_rows st)
          (match first_exception st with Some e0 => Some e0 | None => Some e end)
          (trace st).

Definition log (ev : event) (st : loop_state) : loop_state :=
  mkState (sem_value st) (tasks st) (good_rows st) (bad_rows st)
          (first_exception st) (trace st ++ [ev]).

(** The loop resumes task [i] and runs it to its next node.  A task that
    waits for a permit while the semaphore's value is 0 stays where it is,
    and so does a finished task.  [net i] is the answer the network gives
    to the request of task [i]. *)
Definition resume (net : nat -> http_answer) (i : nat) (st : loop_state)
    : loop_state :=
  match tasks st !! i with
  | Some (mkTask h (Running c)) =>
      match c with
      | Ret a => set_task i (mkTask h (Finished (Return a))) st
      | Raise e =>
          note_exception e (set_task i (mkTask h (Finished (Raised e))) st)
      | Acquire k =>
          match sem_value st with
          | O => st
          | S v =>
              log EvAcquire
                (set_sem v (set_task i (mkTask (S h) (Running k)) st))
          end
      | Release k =>
          log EvRelease
            (set_sem (S (sem_value st))
               (set_task i (mkTask (pred h) (Running k)) st))
      | Get url k =>
          log (EvGet url) (set_task i (mkTask h (Running k)) st)
      | Response k =>
          log (EvAnswer (net i))
            (set_task i (mkTask h (Running (k (net i)))) st)
      | Sleep d k =>
          log (EvSleep d) (set_task i (mkTask h (Running k)) st)
      | AppendGood row k =>
          log (EvAppendGood row)
            (push_good row (set_task i (mkTask h (Running k)) st))
      | AppendBad row k =>
          log (EvAppendBad row)
            (push_bad row (set_task i (mkTask h (Running k)) st))
      end
  | _ => st
  end.

(** A schedule is the sequence of tasks the loop resumes. *)
Definition run_loop (net : nat -> http_answer) (sched : list nat)
    (st : loop_state) : loop_state :=
  foldl (fun s i => resume net i s) st sched.

Definition returned (t : task) : bool :=
  match phase_of t with
  | Finished (Return _) => true
  | _ => false
  end.

(** [await asyncio.gather] on the tasks: raises the first exception of a task,
    returns once every task has returned, and is pending otherwise. *)
Definition gather (st : loop_state) : option (outcome unit) :=
  match first_exception st with
  | Some e => Some (Raised e)
  | None => if forallb returned (tasks st) then Some (Return tt) else None
  end.

(** Permits held by the tasks of the loop. *)
Definition permits_held (st : loop_state) : nat :=
  sum_list (held <$> tasks st).

(** The tasks that hold a permit: past the acquisition, not yet past the
    release. *)
Definition holding (st : loop_state) : list task :=
  filter (fun t => 0 < held t) (tasks st).

(** ** [check_urls] *)

(** [tasks = [process_row(row) for _, row in df.iterrows()]] *)
Definition spawn (df : DataFrame) : list task :=
  (fun row => mkTask 0 (Running (process_row row))) <$> iterrows df.

(** The loop when [gather] is called; [sem] is the value of the semaphore
    that the caller passes. *)
Definition check_urls_start (df : DataFrame) (sem : nat) : loop_state :=
  mkState sem (spawn df) [] [] None [].

(** [check_urls df session semaphore] under a schedule: [None] while
    [gather] is pending at the end of the schedule. *)
Definition check_urls (df : DataFrame) (net : nat -> http_answer)
    (sem : nat) (sched : list nat) : option (outcome (list Row * list Row)) :=
  let st := run_loop net sched (check_urls_start df sem) in
  match gather st with
  | None => None
  | Some (Raised e) => Some (Raised e)
  | Some (Return _) => Some (Return (good_rows st, bad_rows st))
  end.

(** ** [process_csv]

    [read_csv] is the file system as [pd.read_csv] sees it; the session is
    [net], the semaphore is created with [max_concurrency] permits;
    [to_csv] and [print] are taken to succeed.  The result is what the
    coroutine gives its caller ([None] while pending; [Return tt] is
    Python's [None]) and the events of the run. *)
Definition process_csv (read_csv : string -> outcome DataFrame)
    (net : nat -> http_answer) (sched : list nat)
    : option (outcome unit) * list event :=
  match read_csv input_file with
  | Raised e => (Some (Raised e), [EvReadCsv input_file])
  | Return df =>
      if decide (URL_COLUMN ∈ columns df) then
        let st := run_loop net sched (check_urls_start df max_concurrency) in
        match gather st with
        | None => (None, EvReadCsv input_file :: trace st)
        | Some (Raised e) => (Some (Raised e), EvReadCsv input_file :: trace st)
        | Some (Return _) =>
            (Some (Return tt),
             EvReadCsv input_file :: trace st ++
               [EvWriteCsv good_file (good_rows st);
                EvWriteCsv bad_file (bad_rows st);
                EvPrint MSG_DONE])
        end
      else
        (Some (Return tt), [EvReadCsv input_file; EvPrint MSG_NO_COLUMN])
  end.

(** Observations on a list of events. *)
Definition is_request (ev : event) : bool :=
  match ev with EvGet _ => true | _ => false end.

Definition is_write (ev : event) : bool :=
  match ev with EvWriteCsv _ _ => true | _ => false end.

Definition requests_issued (t : list event) : nat :=
  length (filter (fun ev => is_request ev = true) t).

Definition files_written (t : list event) : list event :=
  filter (fun ev => is_write ev = true) t.

(** Rows in the order in which their probes completed, i.e. in which
    [process_row] appended them to either list. *)
Definition appended (ev : event) : option Row :=
  match ev with
  | EvAppendGood row | EvAppendBad row => Some row
  | _ => None
  end.

Definition completion_order (t : list event) : list Row :=
  omap appended t.

(** Delays awaited, in order: the arguments of [asyncio.sleep]. *)
Definition slept (ev : event) : option Q :=
  match ev with EvSleep d => Some d | _ => None end.

Definition delays_awaited (t : list event) : list Q := omap slept t.

(** A response whose status lies in [200, 300). *)
Definition is_2xx (ans : http_answer) : Prop :=
  exists response, ans = Return response /\ (200 <= status response < 300)%Z.

(** The classification of an answer. *)
Definition probe_ok (ans : http_answer) : bool :=
  match ans with
  | Return response =>
      (200 <=? status response)%Z && (status response <? 300)%Z
  | Raised _ => false
  end.

(** The rows whose request gets a 2xx answer, and the others; the request
    of a row is that of the task at the row's position. *)
Definition passed (net : nat -> http_answer) (rows : list Row) : list Row :=
  filter (fun row => probe_ok (net (name row)) = true) rows.

Definition failed (net : nat -> http_answer) (rows : list Row) : list Row :=
  filter (fun row => probe_ok (net (name row)) = false) rows.

(** The schedule in which every task is run to its end (seven moves at
    most) before the next one starts. *)
Definition one_by_one (n : nat) : list nat :=
  i ← seq 0 n; replicate 7 i.

Definition finished_task : task := mkTask 0 (Finished (Return tt)).

(** Example frames and networks used to exercise the definitions. *)
Module Examples.

Definition row_a : list cell := [Str "1"; Str "http://a.example/"].
Definition row_b : list cell := [Str "2"; Str "http://b.example/"].
Definition row_c : list cell := [Str "3"; Str "http://c.example/"].

Definition df2 : DataFrame := mkDataFrame ["id"; URL_COLUMN] [row_a; row_b].
Definition df3 : DataFrame :=
  mkDataFrame ["id"; URL_COLUMN] [row_a; row_b; row_c].
Definition df_no_url : DataFrame := mkDataFrame ["id"; "link"] [row_a; row_b].
Definition df_empty : DataFrame := mkDataFrame ["id"; URL_COLUMN] [].

Definition R0 : Row := series_of (columns df3) 0 row_a.
Definition R1 : Row := series_of (columns df3) 1 row_b.
Definition R2 : Row := series_of (columns df3) 2 row_c.

Definition all_200 : nat -> http_answer :=
  fun _ => Return (mkResponse 200%Z).

(** The example of the specification: 200, 404, timeout. *)
Definition net_200_404_timeout : nat -> http_answer :=
  fun i =>
    match i with
    | 0 => Return (mkResponse 200%Z)
    | 1 => Return (mkResponse 404%Z)
    | _ => Raised TimeoutError
    end.

(** Task 0 acquires and sends its request, task 1 does the same; the
    answer to task 1 arrives first and task 1 runs to its end; then the
    answer to task 0 arrives and task 0 runs to its end. *)
Definition second_first : list nat :=
  [0; 0; 1; 1; 1; 1; 1; 1; 1; 0; 0; 0; 0; 0].

End Examples.

(** ** Predicates on coroutines and tasks *)

(** One move of a task, as [resume] makes it (the semaphore permitting). *)
Inductive task_step : task -> task -> Prop :=
| step_ret h a :
    task_step (mkTask h (Running (Ret a))) (mkTask h (Finished (Return a)))
| step_raise h e :
    task_step (mkTask h (Running (Raise e))) (mkTask h (Finished (Raised e)))
| step_acquire h k :
    task_step (mkTask h (Running (Acquire k))) (mkTask (S h) (Running k))
| step_release h k :
    task_step (mkTask h (Running (Release k))) (mkTask (pred h) (Running k))
| step_get h url k :
    task_step (mkTask h (Running (Get url k))) (mkTask h (Running k))
| step_response h k ans :
    task_step (mkTask h (Running (Response k))) (mkTask h (Running (k ans)))
| step_sleep h d k :
    task_step (mkTask h (Running (Sleep d k))) (mkTask h (Running k))
| step_good h row k :
    task_step (mkTask h (Running (AppendGood row k))) (mkTask h (Running k))
| step_bad h row k :
    task_step (mkTask h (Running (AppendBad row k))) (mkTask h (Running k)).

(** [balanced h c]: from [c], entered with [h] permits in hand, no path
    releases a permit it does not hold and every path ends, by [return] or
    by [raise], with no permit in hand. *)
Fixpoint balanced {A : Type} (h : nat) (c : coro A) : Prop :=
  match c with
  | Ret _ | Raise _ => h = 0
  | Acquire k => balanced (S h) k
  | Release k => 0 < h /\ balanced (pred h) k
  | Response k => forall ans, balanced h (k ans)
  | Get _ k | Sleep _ k | AppendGood _ k | AppendBad _ k => balanced h k
  end.

Definition task_balanced (t : task) : Prop :=
  match phase_of t with
  | Running c => balanced (held t) c
  | Finished _ => held t = 0
  end.

(** [sleeps_holding h c]: every [asyncio.sleep] of [c] is awaited with a
    permit in hand and is followed by the release of a permit. *)
Fixpoint sleeps_holding {A : Type} (h : nat) (c : coro A) : Prop :=
  match c with
  | Ret _ | Raise _ => True
  | Acquire k => sleeps_holding (S h) k
  | Release k => sleeps_holding (pred h) k
  | Response k => forall ans, sleeps_holding h (k ans)
  | Sleep _ k =>
      0 < h /\ (exists k', k = Release k') /\ sleeps_holding h k
  | Get _ k | AppendGood _ k | AppendBad _ k => sleeps_holding h k
  end.

Definition task_sleeps_holding (t : task) : Prop :=
  match phase_of t with
  | Running c => sleeps_holding (held t) c
  | Finished _ => True
  end.

(** [owes c rs]: every path of [c] that returns appends exactly the rows
    [rs], in this order, each to one of the two lists. *)
Fixpoint owes {A : Type} (c : coro A) (rs : list Row) : Prop :=
  match c with
  | Ret _ => rs = []
  | Raise _ => True
  | Acquire k | Release k | Get _ k | Sleep _ k => owes k rs
  | Response k => forall ans, owes (k ans) rs
  | AppendGood row k | AppendBad row k =>
      exists rs', rs = row :: rs' /\ owes k rs'
  end.

Definition task_owes (t : task) (rs : list Row) : Prop :=
  match phase_of t with
  | Running c => owes c rs
  | Finished (Return _) => rs = []
  | Finished (Raised _) => True
  end.

Definition appended_good (ev : event) : option Row :=
  match ev with EvAppendGood row => Some row | _ => None end.

Definition appended_bad (ev : event) : option Row :=
  match ev with EvAppendBad row => Some row | _ => None end.

(** The rows keep the relative order they have in the frame. *)
Definition in_input_order (df : DataFrame) (rows : list Row) : Prop :=
  rows `sublist_of` iterrows df.

(** Every row of the frame is in one of the two lists or still owed by
    its task. *)
Definition rows_accounted (rows : list Row) (st : loop_state) : Prop :=
  exists owed : list (list Row),
    Forall2 task_owes (tasks st) owed /\
    good_rows st ++ bad_rows st ++ concat owed ≡ₚ rows.

(** Case analysis on what [resume] does to task [i] of [st]. *)
Ltac resume_cases i st :=
  unfold resume;
  let Hlookup := fresh "Hlookup" in
  destruct (tasks st !! i) as [[? [[]|?]]|] eqn:Hlookup;
  [ | | destruct (sem_value st) eqn:?  | | | | | | | | ].

(** ** Further observations and predicates *)

(** The verdict on a row: the classification of the answer that the
    network gives to the request of the task at the row's position. *)
Definition verdict (net : nat -> http_answer) (row : Row) : bool :=
  probe_ok (net (name row)).

(** [sorts_right f ans c]: on the path that [c] takes when its request is
    answered by [ans], a row goes to [good_rows] only if [f] accepts it and
    to [bad_rows] only if [f] rejects it. *)
Fixpoint sorts_right {A : Type} (f : Row -> bool) (ans : http_answer)
    (c : coro A) : Prop :=
  match c with
  | Ret _ | Raise _ => True
  | Response k => sorts_right f ans (k ans)
  | AppendGood row k => f row = true /\ sorts_right f ans k
  | AppendBad row k => f row = false /\ sorts_right f ans k
  | Acquire k | Release k | Get _ k | Sleep _ k => sorts_right f ans k
  end.

Definition task_sorts (net : nat -> http_answer) (i : nat) (t : task) : Prop :=
  match phase_of t with
  | Running c => sorts_right (verdict net) (net i) c
  | Finished _ => True
  end.

(** Every task sorts its rows by their verdict and so did the tasks that
    filled the two lists. *)
Definition rows_sorted (net : nat -> http_answer) (st : loop_state) : Prop :=
  (forall i t, tasks st !! i = Some t -> task_sorts net i t) /\
  Forall (fun row => verdict net row = true) (good_rows st) /\
  Forall (fun row => verdict net row = false) (bad_rows st).

(** The URLs of the requests sent, in the order of sending. *)
Definition requested (ev : event) : option cell :=
  match ev with EvGet url => Some url | _ => None end.

Definition urls_requested (t : list event) : list cell := omap requested t.

(** What [process_row] passes to [check_url] for a row, if anything. *)
Definition url_of (row : Row) : list cell :=
  match getitem row URL_COLUMN with
  | Return url => [url]
  | Raised _ => []
  end.

(** [gets_left c urls]: every path of [c] sends exactly the requests for
    [urls], in this order. *)
Fixpoint gets_left {A : Type} (c : coro A) (urls : list cell) : Prop :=
  match c with
  | Ret _ | Raise _ => urls = []
  | Get url k => exists urls', urls = url :: urls' /\ gets_left k urls'
  | Response k => forall ans, gets_left (k ans) urls
  | Acquire k | Release k | Sleep _ k | AppendGood _ k | AppendBad _ k =>
      gets_left k urls
  end.

Definition task_gets_left (t : task) (urls : list cell) : Prop :=
  match phase_of t with
  | Running c => gets_left c urls
  | Finished _ => urls = []
  end.

(** Every URL of [urls] has been requested or is still to be requested by
    its task. *)
Definition requests_accounted (urls : list cell) (st : loop_state) : Prop :=
  exists owed : list (list cell),
    Forall2 task_gets_left (tasks st) owed /\
    urls_requested (trace st) ++ concat owed ≡ₚ urls.

(** A task whose request is in flight: sent and not yet answered. *)
Definition awaits_answer (t : task) : bool :=
  match phase_of t with
  | Running (Response _) => true
  | _ => false
  end.

Definition in_flight (st : loop_state) : list task :=
  filter (fun t => awaits_answer t = true) (tasks st).

(** [requests_holding h c]: [c] sends its requests and awaits their
    answers with a permit in hand. *)
Fixpoint requests_holding {A : Type} (h : nat) (c : coro A) : Prop :=
  match c with
  | Ret _ | Raise _ => True
  | Acquire k => requests_holding (S h) k
  | Release k => requests_holding (pred h) k
  | Get _ k => 0 < h /\ requests_holding h k
  | Response k => 0 < h /\ forall ans, requests_holding h (k ans)
  | Sleep _ k | AppendGood _ k | AppendBad _ k => requests_holding h k
  end.

Definition task_requests_holding (t : task) : Prop :=
  match phase_of t with
  | Running c => requests_holding (held t) c
  | Finished _ => True
  end.

(** [quiet c]: no path of [c] ends with [raise]. *)
Fixpoint quiet {A : Type} (c : coro A) : Prop :=
  match c with
  | Ret _ => True
  | Raise _ => False
  | Response k => forall ans, quiet (k ans)
  | Acquire k | Release k | Get _ k | Sleep _ k
  | AppendGood _ k | AppendBad _ k => quiet k
  end.

Definition task_quiet (t : task) : Prop :=
  match phase_of t with
  | Running c => quiet c
  | Finished (Return _) => True
  | Finished (Raised _) => False
  end.

(** The two shapes of a task whose row has no URL column: about to raise
    [KeyError], and finished by raising it. *)
Definition raising_task : task :=
  mkTask 0 (Running (Raise (KeyError URL_COLUMN))).

Definition raised_task : task :=
  mkTask 0 (Finished (Raised (KeyError URL_COLUMN))).

(** The loop of a frame without the URL column: nothing happens but tasks
    raising [KeyError]. *)
Definition only_key_errors (sem : nat) (st : loop_state) : Prop :=
  sem_value st = sem /\ good_rows st = [] /\ bad_rows st = [] /\
  trace st = [] /\
  (first_exception st = None \/
   first_exception st = Some (KeyError URL_COLUMN)) /\
  Forall (fun t => t = raising_task \/
                   (t = raised_task /\
                    first_exception st = Some (KeyError URL_COLUMN)))
         (tasks st).

(** Events of the loop, as opposed to those of [process_csv] itself. *)
Definition is_loop_event (ev : event) : bool :=
  match ev with
  | EvReadCsv _ | EvWriteCsv _ _ | EvPrint _ => false
  | _ => true
  end.

Definition finished (t : task) : bool :=
  match phase_of t with
  | Finished _ => true
  | Running _ => false
  end.

(** The number of moves that [c] still makes when its request is answered
    by [ans], the last one being its [return] or [raise]. *)
Fixpoint moves_left {A : Type} (ans : http_answer) (c : coro A) : nat :=
  match c with
  | Ret _ | Raise _ => 1
  | Response k => S (moves_left ans (k ans))
  | Acquire k | Release k | Get _ k | Sleep _ k
  | AppendGood _ k | AppendBad _ k => S (moves_left ans k)
  end.

Definition task_moves_left (net : nat -> http_answer) (i : nat) (t : task)
    : nat :=
  match phase_of t with
  | Running c => moves_left (net i) c
  | Finished _ => 0
  end.

(** The moves that the tasks of the loop still have to make. *)
Definition work_left (net : nat -> http_answer) (st : loop_state) : nat :=
  sum_list (imap (task_moves_left net) (tasks st)).

(** [acquires_once h c]: [c] asks for a permit only when it holds none. *)
Fixpoint acquires_once {A : Type} (h : nat) (c : coro A) : Prop :=
  match c with
  | Ret _ | Raise _ => True
  | Acquire k => h = 0 /\ acquires_once (S h) k
  | Release k => acquires_once (pred h) k
  | Response k => forall ans, acquires_once h (k ans)
  | Get _ k | Sleep _ k | AppendGood _ k | AppendBad _ k => acquires_once h k
  end.

Definition task_acquires_once (t : task) : Prop :=
  match phase_of t with
  | Running c => acquires_once (held t) c
  | Finished _ => True
  end.

(** What the loop of [check_urls] keeps, for a semaphore created with
    [sem] permits. *)
Definition loop_sound (sem : nat) (st : loop_state) : Prop :=
  Forall task_balanced (tasks st) /\
  Forall task_acquires_once (tasks st) /\
  Forall task_quiet (tasks st) /\
  first_exception st = None /\
  sem_value st + permits_held st = sem.

(** * Properties of a single probe *)

Lemma check_url_response (url : cell) (response : ClientResponse) :
  run_coro (Return response) (check_url url) =
    ([EvAcquire; EvGet url; EvAnswer (Return response);
      EvSleep request_delay; EvRelease],
     Return ((200 <=? status response)%Z && (status response <? 300)%Z)).
Proof. reflexivity. Qed.

Lemma check_url_exception (url : cell) (e : exn) :
  run_coro (Raised e) (check_url url) =
    ([EvAcquire; EvGet url; EvAnswer (Raised e); EvRelease], Return false).
Proof. reflexivity. Qed.

Lemma in_range_2xx (s : Z) :
  ((200 <=? s)%Z && (s <? 300)%Z) = true <-> (200 <= s < 300)%Z.
Proof. rewrite andb_true_iff, Z.leb_le, Z.ltb_lt. tauto. Qed.

(** C4: [check_url] returns [True] exactly when a response with a status
    in [200, 300) is received; whatever else the request does (another
    status, a timeout, a connection or DNS failure, a malformed URL, any
    other exception) it returns [False]. *)
Theorem check_url_success_iff_2xx (url : cell) (ans : http_answer) :
  (snd (run_coro ans (check_url url)) = Return true <-> is_2xx ans) /\
  (snd (run_coro ans (check_url url)) = Return false <-> ~ is_2xx ans).
Proof.
  unfold is_2xx. destruct ans as [response | e].
  - rewrite check_url_response. cbn [snd].
    destruct ((200 <=? status response)%Z && (status response <? 300)%Z)
      eqn:Hrange.
    + apply in_range_2xx in Hrange. split; split; try done.
      * intros _. by exists response.
      * intros Hnot. exfalso. apply Hnot. by exists response.
    + assert (~ (200 <= status response < 300)%Z) as Hout.
      { rewrite <- in_range_2xx, Hrange. done. }
      split; split; try done.
      * intros (r & Heq & Hr). by injection Heq as <-.
      * intros _ (r & Heq & Hr). by injection Heq as <-.
  - rewrite check_url_exception. cbn [snd]. split; split; try done.
    + by intros (r & Heq & _).
    + by intros _ (r & Heq & _).
Qed.

(** C5: whatever the request does, [check_url] returns a boolean to its
    caller: no exception leaves it. *)
Theorem check_url_never_raises (url : cell) (ans : http_answer) :
  exists b : bool, snd (run_coro ans (check_url url)) = Return b.
Proof.
  destruct ans as [response | e].
  - rewrite check_url_response. eauto.
  - rewrite check_url_exception. eauto.
Qed.

(** C6: the delay [request_delay] is awaited once when a response was
    received, whatever its status, and is not awaited when the request
    raised, in which case the probe returns [False]. *)
Theorem check_url_delay_iff_response (url : cell) (ans : http_answer) :
  delays_awaited (fst (run_coro ans (check_url url))) =
    match ans with
    | Return _ => [request_delay]
    | Raised _ => []
    end /\
  match ans with
  | Return _ => True
  | Raised _ => run_coro ans (check_url url) =
                  ([EvAcquire; EvGet url; EvAnswer ans; EvRelease],
                   Return false)
  end.
Proof. destruct ans as [response | e]; split; reflexivity || exact I. Qed.

(** * The event loop: how a state evolves *)

(** A property kept by every resumption holds all along every schedule. *)
Lemma run_loop_invariant (I : loop_state -> Prop) net :
  (forall i st, I st -> I (resume net i st)) ->
  forall sched st, I st -> I (run_loop net sched st).
Proof.
  intros Hstep sched. induction sched as [|i sched IH]; intros st Hst.
  - exact Hst.
  - apply IH, Hstep, Hst.
Qed.

(** Resuming task [i] changes at most that task, by one [task_step]. *)
Lemma resume_task_step net i st :
  resume net i st = st \/
  exists t t', tasks st !! i = Some t /\ task_step t t' /\
               tasks (resume net i st) = <[i := t']> (tasks st).
Proof.
  resume_cases i st; try (by left); right;
    eexists _, _; (split; [reflexivity|]); (split; [|reflexivity]);
    constructor.
Qed.

Section TaskInvariant.

Variable P : task -> Prop.
Hypothesis P_step : forall t t', P t -> task_step t t' -> P t'.

Lemma resume_Forall net i st :
  Forall P (tasks st) -> Forall P (tasks (resume net i st)).
Proof.
  intros Hall.
  destruct (resume_task_step net i st) as [-> | (t & t' & Hi & Hstep & ->)].
  - exact Hall.
  - apply Forall_insert; [exact Hall|].
    eapply P_step; [|exact Hstep].
    by eapply Forall_lookup_1 in Hall.
Qed.

Lemma run_loop_Forall net sched st :
  Forall P (tasks st) -> Forall P (tasks (run_loop net sched st)).
Proof.
  apply (run_loop_invariant (fun s => Forall P (tasks s))).
  intros. by apply resume_Forall.
Qed.

End TaskInvariant.

(** ** The tasks that [check_urls] spawns *)

Lemma releasing_balanced {A : Type} (c : coro A) (h : nat) :
  balanced h c -> balanced (S h) (releasing c).
Proof.
  revert h.
  induction c as [a|e|k IH|k IH|url k IH|k IH|d k IH|row k IH|row k IH];
    intros h; cbn; try (by auto).
  - intros ->. split; [lia | done].
  - intros ->. split; [lia | done].
  - intros [Hpos Hk]. split; [lia|].
    destruct h as [|h]; [lia|]. cbn in *. by apply IH.
Qed.

Lemma check_url_balanced (url : cell) : balanced 0 (check_url url).
Proof.
  cbn. intros [response | e]; cbn; split; by (lia || done).
Qed.

Lemma process_row_balanced (row : Row) : balanced 0 (process_row row).
Proof.
  unfold process_row. destruct (getitem row URL_COLUMN) as [url | e]; [|done].
  cbn. intros [response | e]; cbn.
  - split; [lia|]. by destruct (_ && _).
  - split; [lia | done].
Qed.

Lemma task_balanced_step t t' :
  task_balanced t -> task_step t t' -> task_balanced t'.
Proof.
  unfold task_balanced. intros Hb Hstep.
  destruct Hstep; cbn in *; try done.
  - by destruct Hb.
Qed.

Lemma spawn_balanced df : Forall task_balanced (spawn df).
Proof.
  unfold spawn. apply Forall_fmap, Forall_forall. intros row _.
  apply process_row_balanced.
Qed.

(** ** The semaphore *)

Lemma sum_held_insert (l : list task) i t t' :
  l !! i = Some t ->
  sum_list (held <$> <[i := t']> l) + held t = sum_list (held <$> l) + held t'.
Proof.
  revert i. induction l as [|x l IH]; intros [|i] Hi; try done.
  - injection Hi as ->. csimpl. lia.
  - csimpl in *. specialize (IH i Hi). lia.
Qed.

(** Resuming a task moves permits between the semaphore and that task. *)
Lemma resume_permits net i st :
  resume net i st = st \/
  exists t t', tasks st !! i = Some t /\
               tasks (resume net i st) = <[i := t']> (tasks st) /\
               (task_balanced t ->
                sem_value (resume net i st) + held t' = sem_value st + held t).
Proof.
  resume_cases i st; try (by left); right;
    eexists _, _; (split; [reflexivity|]); (split; [reflexivity|]);
    unfold task_balanced; cbn; lia.
Qed.

(** The permits are conserved: those in the semaphore plus those in the
    hands of the tasks. *)
Lemma resume_conserves net i st :
  Forall task_balanced (tasks st) ->
  sem_value (resume net i st) + permits_held (resume net i st) =
    sem_value st + permits_held st.
Proof.
  intros Hall. unfold permits_held.
  destruct (resume_permits net i st) as [-> | (t & t' & Hi & -> & Hsem)];
    [done|].
  pose proof (sum_held_insert _ _ _ t' Hi).
  pose proof (Hsem (Forall_lookup_1 _ _ _ _ Hall Hi)). lia.
Qed.

Lemma run_loop_conserves net sched st :
  Forall task_balanced (tasks st) ->
  sem_value (run_loop net sched st) + permits_held (run_loop net sched st) =
    sem_value st + permits_held st.
Proof.
  intros Hall.
  enough (Forall task_balanced (tasks (run_loop net sched st)) /\
          sem_value (run_loop net sched st)
            + permits_held (run_loop net sched st) =
            sem_value st + permits_held st) as [_ H] by exact H.
  apply (run_loop_invariant
           (fun s => Forall task_balanced (tasks s) /\
                     sem_value s + permits_held s =
                       sem_value st + permits_held st)); [|done].
  intros i s [Hb Hs]. split.
  - by apply resume_Forall; [apply task_balanced_step|].
  - by rewrite resume_conserves.
Qed.

Lemma spawn_holds_nothing df : sum_list (held <$> spawn df) = 0.
Proof.
  unfold spawn. induction (iterrows df) as [|row rows IH]; [done|].
  csimpl. by rewrite IH.
Qed.

Lemma holders_le_permits (l : list task) :
  length (filter (fun t => 0 < held t) l) <= sum_list (held <$> l).
Proof.
  induction l as [|t l IH]; [done|]. csimpl.
  destruct (decide (0 < held t)) as [Hpos | Hzero].
  - rewrite filter_cons_True by done. cbn. lia.
  - rewrite filter_cons_False by done. lia.
Qed.

(** C3: at every point of every run of [check_urls] no more tasks hold a
    permit, and the tasks hold no more permits, than the semaphore was
    created with ([max_concurrency] in [process_csv]), the permits in the
    semaphore and in the hands of the tasks add up to that number, a task
    that has finished (by return or by exception) holds none, and
    [check_url] gives its permit back on every path. *)
Theorem permits_never_exceed_capacity
    (df : DataFrame) (net : nat -> http_answer) (sem : nat)
    (sched : list nat) :
  let st := run_loop net sched (check_urls_start df sem) in
  length (holding st) <= sem /\
  permits_held st <= sem /\
  sem_value st + permits_held st = sem /\
  (forall i t r,
     tasks st !! i = Some t -> phase_of t = Finished r -> held t = 0) /\
  (forall url, balanced 0 (check_url url)) /\
  (forall url ans,
     last (fst (run_coro ans (check_url url))) = Some EvRelease).
Proof.
  intros st.
  assert (sem_value st + permits_held st = sem) as Hsum.
  { unfold st. rewrite run_loop_conserves by apply spawn_balanced.
    unfold permits_held. cbn. rewrite spawn_holds_nothing. lia. }
  assert (Forall task_balanced (tasks st)) as Hall.
  { apply run_loop_Forall; [apply task_balanced_step | apply spawn_balanced]. }
  repeat split.
  - pose proof (holders_le_permits (tasks st)). unfold holding.
    unfold permits_held in Hsum. lia.
  - lia.
  - exact Hsum.
  - intros i t r Hi Hfin.
    pose proof (Forall_lookup_1 _ _ _ _ Hall Hi) as Hb.
    unfold task_balanced in Hb. by rewrite Hfin in Hb.
  - apply check_url_balanced.
  - intros url [response | e]; reflexivity.
Qed.

(** ** The delay is spent with the permit in hand *)

Lemma process_row_sleeps_holding (row : Row) :
  sleeps_holding 0 (process_row row).
Proof.
  unfold process_row. destruct (getitem row URL_COLUMN) as [url | e]; [|done].
  cbn. intros [response | e]; cbn; [|done].
  split; [lia|]. split; [by eexists|]. by destruct (_ && _).
Qed.

Lemma task_sleeps_holding_step t t' :
  task_sleeps_holding t -> task_step t t' -> task_sleeps_holding t'.
Proof.
  unfold task_sleeps_holding. intros Hs Hstep.
  destruct Hstep; cbn in *; try done.
  - by destruct Hs as (_ & _ & Hk).
Qed.

Lemma spawn_sleeps_holding df : Forall task_sleeps_holding (spawn df).
Proof.
  unfold spawn. apply Forall_fmap, Forall_forall. intros row _.
  apply process_row_sleeps_holding.
Qed.

Lemma held_le_permits_held (l : list task) i t :
  l !! i = Some t -> held t <= sum_list (held <$> l).
Proof.
  revert i. induction l as [|x l IH]; intros [|i] Hi; try done.
  - injection Hi as ->. csimpl. lia.
  - csimpl in *. specialize (IH i Hi). lia.
Qed.

(** C9: a task of [check_urls] that is waiting out the delay holds a
    permit, so it counts among the permits held; when the delay is over
    the task still holds it, and what it does next is the release.  On its
    own, a probe that gets a response acquires, requests, sleeps and only
    then releases. *)
Theorem permit_held_during_delay
    (df : DataFrame) (net : nat -> http_answer) (sem : nat)
    (sched : list nat) (i h : nat) (d : Q) (k : coro unit) :
  let st := run_loop net sched (check_urls_start df sem) in
  tasks st !! i = Some (mkTask h (Running (Sleep d k))) ->
  0 < h /\
  h <= permits_held st /\
  (exists k',
     k = Release k' /\
     tasks (resume net i st) !! i = Some (mkTask h (Running (Release k')))) /\
  (forall url response,
     fst (run_coro (Return response) (check_url url)) =
       [EvAcquire; EvGet url; EvAnswer (Return response);
        EvSleep request_delay; EvRelease]).
Proof.
  intros st Hi.
  assert (Forall task_sleeps_holding (tasks st)) as Hall.
  { apply run_loop_Forall;
      [apply task_sleeps_holding_step | apply spawn_sleeps_holding]. }
  pose proof (Forall_lookup_1 _ _ _ _ Hall Hi) as (Hpos & (k' & ->) & _).
  repeat split.
  - exact Hpos.
  - apply (held_le_permits_held _ _ _ Hi).
  - exists k'. split; [done|]. unfold resume. rewrite Hi. cbn.
    apply list_lookup_insert_eq. by eapply lookup_lt_Some.
Qed.

(** A run in which task 0 is waiting out its delay. *)
Lemma permit_held_during_delay_witness :
  tasks (run_loop Examples.all_200 [0; 0; 0]
           (check_urls_start Examples.df2 max_concurrency)) !! 0 =
    Some (mkTask 1 (Running (Sleep request_delay
            (Release (AppendGood (series_of ["id"; URL_COLUMN] 0 Examples.row_a)
                        (Ret tt)))))) /\
  0 < 1.
Proof.
  split; [reflexivity|].
  eapply (permit_held_during_delay Examples.df2 Examples.all_200
            max_concurrency [0; 0; 0] 0 1 _ _).
  reflexivity.
Defined.

(** * The partition *)

Lemma process_row_owes (row : Row) : owes (process_row row) [row].
Proof.
  unfold process_row. destruct (getitem row URL_COLUMN) as [url | e]; [|done].
  cbn. intros [response | e]; cbn.
  - destruct (_ && _); cbn; by eexists.
  - by eexists.
Qed.

Lemma spawn_owes df :
  Forall2 task_owes (spawn df) ((fun row => [row]) <$> iterrows df).
Proof.
  unfold spawn. apply Forall2_fmap, Forall_Forall2_diag, Forall_forall.
  intros row _. apply process_row_owes.
Qed.

Lemma concat_singletons {A : Type} (l : list A) :
  concat ((fun x => [x]) <$> l) = l.
Proof. induction l as [|x l IH]; [done|]. csimpl. by rewrite IH. Qed.

(** Replacing one list of a [concat] keeps the others. *)
Lemma concat_insert_perm {A : Type} (l : list (list A)) i x :
  l !! i = Some x ->
  exists others, concat l ≡ₚ x ++ others /\
                 forall y, concat (<[i := y]> l) ≡ₚ y ++ others.
Proof.
  revert i. induction l as [|z l IH]; intros [|i] Hi; try done.
  - injection Hi as ->. by exists (concat l).
  - destruct (IH i Hi) as (others & Hx & Hy). exists (z ++ others). split.
    + cbn. rewrite Hx. by rewrite !app_assoc, (Permutation_app_comm z x).
    + intros y. cbn. rewrite Hy.
      by rewrite !app_assoc, (Permutation_app_comm z y).
Qed.

(** Resuming a task moves at most one row from what the task owes to one
    of the two lists. *)
Lemma resume_rows net i st :
  resume net i st = st \/
  exists t t', tasks st !! i = Some t /\
    tasks (resume net i st) = <[i := t']> (tasks st) /\
    forall rs, task_owes t rs ->
      exists rs', task_owes t' rs' /\
        good_rows (resume net i st) ++ bad_rows (resume net i st) ++ rs' ≡ₚ
          good_rows st ++ bad_rows st ++ rs.
Proof.
  resume_cases i st; try (by left); right;
    eexists _, _; (split; [reflexivity|]); (split; [reflexivity|]);
    unfold task_owes; cbn; intros rs Hrs;
    try (by exists rs).
  - destruct Hrs as (rs' & -> & Hk). exists rs'. split; [done|].
    rewrite <- !app_assoc. cbn.
    by rewrite <- (Permutation_middle (bad_rows st)).
  - destruct Hrs as (rs' & -> & Hk). exists rs'. split; [done|].
    by rewrite <- !app_assoc.
Qed.

Lemma resume_accounted rows net i st :
  rows_accounted rows st -> rows_accounted rows (resume net i st).
Proof.
  intros (owed & Hall & Hperm).
  destruct (resume_rows net i st) as [-> | (t & t' & Hi & Htasks & Hmove)].
  { by exists owed. }
  destruct (Forall2_lookup_l _ _ _ _ _ Hall Hi) as (rs & Hrs & Ht).
  destruct (Hmove rs Ht) as (rs' & Ht' & Hperm').
  destruct (concat_insert_perm _ _ _ Hrs) as (others & Hold & Hnew).
  exists (<[i := rs']> owed). split.
  - rewrite Htasks. by apply Forall2_insert.
  - rewrite Hnew, !app_assoc.
    rewrite <- (app_assoc (good_rows _)), Hperm', <- !app_assoc.
    by rewrite <- Hold.
Qed.

Lemma returned_owes_nothing (ts : list task) (owed : list (list Row)) :
  Forall2 task_owes ts owed -> forallb returned ts = true -> concat owed = [].
Proof.
  induction 1 as [|t rs ts owed Ht _ IH]; [done|].
  cbn. intros [Hret Hrest]%andb_true_iff.
  rewrite (IH Hrest), app_nil_r.
  unfold returned in Hret. unfold task_owes in Ht.
  by destruct (phase_of t) as [c | [a | e]].
Qed.

(** What [check_urls] returns is read off the state at the end. *)
Lemma check_urls_returns df net sem sched good bad :
  check_urls df net sem sched = Some (Return (good, bad)) ->
  let st := run_loop net sched (check_urls_start df sem) in
  good = good_rows st /\ bad = bad_rows st /\
  first_exception st = None /\ forallb returned (tasks st) = true.
Proof.
  unfold check_urls, gather. cbn zeta.
  destruct (first_exception _); [done|].
  destruct (forallb _ _); [|done].
  by intros [= <- <-].
Qed.

Lemma iterrows_names df : name <$> iterrows df = seq 0 (length (data df)).
Proof.
  unfold iterrows. rewrite fmap_imap.
  rewrite <- (list_fmap_id (seq 0 _)). apply (imap_seq_0 (data df) id).
Qed.

Lemma iterrows_NoDup df : NoDup (iterrows df).
Proof.
  apply (NoDup_fmap_1 name). rewrite iterrows_names. apply NoDup_seq.
Qed.

Lemma check_urls_permutation df net sem sched good bad :
  check_urls df net sem sched = Some (Return (good, bad)) ->
  good ++ bad ≡ₚ iterrows df.
Proof.
  intros (-> & -> & _ & Hret)%check_urls_returns.
  assert (rows_accounted (iterrows df)
            (run_loop net sched (check_urls_start df sem)))
    as (owed & Hall & Hperm).
  { apply (run_loop_invariant (rows_accounted (iterrows df))).
    - intros. by apply resume_accounted.
    - exists ((fun row => [row]) <$> iterrows df). split.
      + apply spawn_owes.
      + cbn. by rewrite concat_singletons. }
  by rewrite (returned_owes_nothing _ _ Hall Hret), app_nil_r in Hperm.
Qed.

(** C1: when [check_urls] returns, whatever the schedule and the answers
    of the network, the two lists together hold the rows of the frame,
    each of them once: every row is in exactly one of the lists, no row is
    repeated, none is missing, none is foreign, and the lengths add up to
    the number of rows. *)
Theorem check_urls_partitions_input
    (df : DataFrame) (net : nat -> http_answer) (sem : nat)
    (sched : list nat) (good bad : list Row) :
  check_urls df net sem sched = Some (Return (good, bad)) ->
  good ++ bad ≡ₚ iterrows df /\
  (forall row, row ∈ iterrows df ->
     (row ∈ good /\ (row ∉ bad)) \/ ((row ∉ good) /\ row ∈ bad)) /\
  (forall row, row ∈ good \/ row ∈ bad -> row ∈ iterrows df) /\
  NoDup good /\ NoDup bad /\
  length good + length bad = length (iterrows df).
Proof.
  intros Hperm%check_urls_permutation.
  assert (NoDup (good ++ bad)) as (Hgood & Hdisjoint & Hbad)%NoDup_app.
  { rewrite Hperm. apply iterrows_NoDup. }
  repeat split; try done.
  - intros row Hrow. rewrite <- Hperm in Hrow.
    apply elem_of_app in Hrow as [Hin | Hin].
    + left. split; [done|]. by apply Hdisjoint.
    + right. split; [|done]. intros Hg. by apply (Hdisjoint row).
  - intros row Hrow. rewrite <- Hperm. by apply elem_of_app.
  - by rewrite <- Hperm, length_app.
Qed.

(** The example of the specification: statuses 200 and 404 and a timeout,
    two permits. *)
Lemma check_urls_partitions_input_witness :
  check_urls Examples.df3 Examples.net_200_404_timeout 2
    (one_by_one 3) =
    Some (Return ([Examples.R0], [Examples.R1; Examples.R2])) /\
  [Examples.R0] ++ [Examples.R1; Examples.R2] ≡ₚ iterrows Examples.df3.
Proof.
  split; [vm_compute; reflexivity|].
  apply (check_urls_partitions_input Examples.df3
           Examples.net_200_404_timeout 2 (one_by_one 3)).
  vm_compute; reflexivity.
Defined.

(** * The order inside the partitions *)

Lemma resume_lists_from_trace net i st :
  good_rows st = omap appended_good (trace st) /\
  bad_rows st = omap appended_bad (trace st) ->
  good_rows (resume net i st) = omap appended_good (trace (resume net i st)) /\
  bad_rows (resume net i st) = omap appended_bad (trace (resume net i st)).
Proof.
  intros [Hgood Hbad].
  resume_cases i st; try done; cbn; rewrite !omap_app, <- Hgood, <- Hbad;
    cbn; by rewrite ?app_nil_r.
Qed.

Lemma omap_sublist {A B : Type} (f g : A -> option B) (l : list A) :
  (forall x y, f x = Some y -> g x = Some y) ->
  omap f l `sublist_of` omap g l.
Proof.
  intros Hfg. induction l as [|x l IH]; [done|]. cbn.
  destruct (f x) as [y|] eqn:Hf.
  - rewrite (Hfg x y Hf). by constructor.
  - destruct (g x); [by constructor | done].
Qed.

Lemma completion_order_split (t : list event) :
  completion_order t ≡ₚ omap appended_good t ++ omap appended_bad t.
Proof.
  unfold completion_order. induction t as [|ev t IH]; [done|].
  destruct ev; cbn; try done.
  - by rewrite IH.
  - by rewrite IH, Permutation_middle.
Qed.

(** C2, as the code has it: when [check_urls] returns, each of the two
    lists holds its rows in the order in which their probes completed
    (both are subsequences of the rows in order of completion, which is a
    rearrangement of the rows of the frame); so the lists are in the order
    of the frame whenever the probes complete in that order. *)
Theorem partitions_in_completion_order
    (df : DataFrame) (net : nat -> http_answer) (sem : nat)
    (sched : list nat) (good bad : list Row) :
  check_urls df net sem sched = Some (Return (good, bad)) ->
  let completed :=
    completion_order (trace (run_loop net sched (check_urls_start df sem))) in
  good `sublist_of` completed /\
  bad `sublist_of` completed /\
  completed ≡ₚ iterrows df /\
  (completed = iterrows df ->
     in_input_order df good /\ in_input_order df bad).
Proof.
  intros Hret completed.
  pose proof (check_urls_permutation _ _ _ _ _ _ Hret) as Hperm.
  apply check_urls_returns in Hret as (-> & -> & _).
  assert (good_rows (run_loop net sched (check_urls_start df sem)) =
            omap appended_good
              (trace (run_loop net sched (check_urls_start df sem))) /\
          bad_rows (run_loop net sched (check_urls_start df sem)) =
            omap appended_bad
              (trace (run_loop net sched (check_urls_start df sem))))
    as [Hgood Hbad].
  { apply (run_loop_invariant
             (fun s => good_rows s = omap appended_good (trace s) /\
                       bad_rows s = omap appended_bad (trace s))); [|done].
    intros. by apply resume_lists_from_trace. }
  assert (good_rows (run_loop net sched (check_urls_start df sem))
            `sublist_of` completed) as Hsub_good.
  { rewrite Hgood. apply omap_sublist. by intros [] y [= <-]. }
  assert (bad_rows (run_loop net sched (check_urls_start df sem))
            `sublist_of` completed) as Hsub_bad.
  { rewrite Hbad. apply omap_sublist. by intros [] y [= <-]. }
  split; [done|]. split; [done|]. split.
  - unfold completed. by rewrite completion_order_split, <- Hgood, <- Hbad.
  - unfold in_input_order. by intros <-.
Qed.

Lemma partitions_in_completion_order_witness :
  check_urls Examples.df3 Examples.net_200_404_timeout 2
    (one_by_one 3) =
    Some (Return ([Examples.R0], [Examples.R1; Examples.R2])) /\
  in_input_order Examples.df3 [Examples.R1; Examples.R2].
Proof.
  split; [vm_compute; reflexivity|].
  eapply (partitions_in_completion_order Examples.df3
            Examples.net_200_404_timeout 2 (one_by_one 3)).
  - vm_compute; reflexivity.
  - vm_compute; reflexivity.
Defined.

(** C2, as the claim has it, fails: with two rows whose requests both get
    status 200, the second response arriving first, [check_urls] returns
    the second row before the first. *)
Lemma partitions_not_in_input_order :
  check_urls Examples.df2 Examples.all_200 max_concurrency
    Examples.second_first =
    Some (Return ([Examples.R1; Examples.R0], [])) /\
  iterrows Examples.df2 = [Examples.R0; Examples.R1] /\
  ~ in_input_order Examples.df2 [Examples.R1; Examples.R0].
Proof.
  split; [vm_compute; reflexivity|]. split; [reflexivity|].
  unfold in_input_order. intros Hsub.
  apply (fmap_sublist name) in Hsub. vm_compute in Hsub.
  apply sublist_cons_r in Hsub as [Hsub | (l & [=] & _)].
  apply sublist_cons_r in Hsub as [Hsub | (l & [= <-] & Hsub)].
  - by apply sublist_nil_r in Hsub.
  - by apply sublist_nil_r in Hsub.
Qed.

(** * [process_csv] *)

Lemma run_loop_no_tasks net sched st :
  tasks st = [] -> run_loop net sched st = st.
Proof.
  intros Hnone. induction sched as [|i sched IH]; [done|].
  cbn. unfold resume at 2. by rewrite Hnone.
Qed.

Lemma process_csv_missing_column read_csv df net sched :
  read_csv input_file = Return df ->
  URL_COLUMN ∉ columns df ->
  process_csv read_csv net sched =
    (Some (Return tt), [EvReadCsv input_file; EvPrint MSG_NO_COLUMN]).
Proof.
  intros Hread Hmissing. unfold process_csv. rewrite Hread.
  by rewrite decide_False.
Qed.

Lemma df_no_url_lacks_column : URL_COLUMN ∉ columns Examples.df_no_url.
Proof.
  cbn. rewrite !not_elem_of_cons. unfold URL_COLUMN.
  repeat split; try discriminate. apply not_elem_of_nil.
Qed.

(** C7: when the frame read from [input_file] has no URL column, the run
    stops after printing the message: no request is issued and neither the
    file of passed rows nor the file of failed rows is written. *)
Theorem missing_column_no_request_no_output
    (read_csv : string -> outcome DataFrame) (df : DataFrame)
    (net : nat -> http_answer) (sched : list nat) :
  read_csv input_file = Return df ->
  URL_COLUMN ∉ columns df ->
  snd (process_csv read_csv net sched) =
    [EvReadCsv input_file; EvPrint MSG_NO_COLUMN] /\
  requests_issued (snd (process_csv read_csv net sched)) = 0 /\
  files_written (snd (process_csv read_csv net sched)) = [].
Proof.
  intros Hread Hmissing.
  by rewrite (process_csv_missing_column _ _ _ _ Hread Hmissing).
Qed.

Lemma missing_column_no_request_no_output_witness :
  requests_issued
    (snd (process_csv (fun _ => Return Examples.df_no_url)
            Examples.all_200 (one_by_one 2))) = 0.
Proof.
  apply (missing_column_no_request_no_output
           (fun _ => Return Examples.df_no_url) Examples.df_no_url
           Examples.all_200 (one_by_one 2)).
  - reflexivity.
  - apply df_no_url_lacks_column.
Defined.

(** C8: for a frame with the URL column and no rows, [check_urls] returns
    two empty lists under every schedule, and [process_csv] returns
    without an exception after writing two files without rows. *)
Theorem empty_input_empty_partitions
    (read_csv : string -> outcome DataFrame) (cols : list string)
    (net : nat -> http_answer) (sem : nat) (sched : list nat) :
  URL_COLUMN ∈ cols ->
  read_csv input_file = Return (mkDataFrame cols []) ->
  check_urls (mkDataFrame cols []) net sem sched = Some (Return ([], [])) /\
  process_csv read_csv net sched =
    (Some (Return tt),
     [EvReadCsv input_file; EvWriteCsv good_file []; EvWriteCsv bad_file [];
      EvPrint MSG_DONE]).
Proof.
  intros Hcol Hread. split.
  - unfold check_urls. by rewrite run_loop_no_tasks.
  - unfold process_csv. rewrite Hread. cbn [columns].
    rewrite decide_True by done. by rewrite run_loop_no_tasks.
Qed.

Lemma empty_input_empty_partitions_witness :
  check_urls Examples.df_empty Examples.all_200 max_concurrency [0; 1; 0] =
    Some (Return ([], [])).
Proof.
  apply (empty_input_empty_partitions (fun _ => Return Examples.df_empty)
           ["id"; URL_COLUMN] Examples.all_200 max_concurrency [0; 1; 0]).
  - repeat constructor.
  - reflexivity.
Defined.

(** C10: when the URL column is missing, [process_csv] prints the message
    and returns [None]; it does not raise.  A run that went through and
    wrote its files gives its caller the same value. *)
Theorem missing_column_returns_normally
    (read_csv : string -> outcome DataFrame) (df : DataFrame)
    (net : nat -> http_answer) (sched : list nat) :
  read_csv input_file = Return df ->
  URL_COLUMN ∉ columns df ->
  fst (process_csv read_csv net sched) = Some (Return tt) /\
  EvPrint MSG_NO_COLUMN ∈ snd (process_csv read_csv net sched) /\
  (forall read_csv' net' sched' v,
     fst (process_csv read_csv' net' sched') = Some (Return v) ->
     fst (process_csv read_csv' net' sched') =
       fst (process_csv read_csv net sched)).
Proof.
  intros Hread Hmissing.
  rewrite (process_csv_missing_column _ _ _ _ Hread Hmissing). cbn [fst snd].
  split; [done|]. split; [repeat constructor|].
  by intros read_csv' net' sched' [] ->.
Qed.

Lemma missing_column_returns_normally_witness :
  fst (process_csv (fun _ => Return Examples.df_no_url)
         Examples.all_200 (one_by_one 2)) = Some (Return tt) /\
  fst (process_csv (fun _ => Return Examples.df2)
         Examples.all_200 (one_by_one 2)) =
    fst (process_csv (fun _ => Return Examples.df_no_url)
           Examples.all_200 (one_by_one 2)).
Proof.
  pose proof df_no_url_lacks_column as Hmissing.
  split.
  - by apply (missing_column_returns_normally
                (fun _ => Return Examples.df_no_url) Examples.df_no_url
                Examples.all_200 (one_by_one 2)).
  - apply (missing_column_returns_normally
             (fun _ => Return Examples.df_no_url) Examples.df_no_url
             Examples.all_200 (one_by_one 2) eq_refl Hmissing)
      with (v := tt).
    vm_compute; reflexivity.
Defined.

(** * A schedule under which [check_urls] returns *)

Lemma run_loop_app net sched1 sched2 st :
  run_loop net (sched1 ++ sched2) st =
    run_loop net sched2 (run_loop net sched1 st).
Proof. unfold run_loop. by rewrite foldl_app. Qed.

Lemma assoc_imap (label : string) (g : nat -> string -> cell)
    (cols : list string) :
  label ∈ cols ->
  is_Some (assoc label (imap (fun j c => (c, g j c)) cols)).
Proof.
  revert g. induction cols as [|c cols IH]; intros g Hin.
  - by apply elem_of_nil in Hin.
  - cbn. destruct (decide (c = label)) as [_ | Hne]; [by eexists|].
    apply elem_of_cons in Hin as [-> | Hin]; [done|].
    apply (IH (fun j => g (S j)) Hin).
Qed.

Lemma getitem_present (cols : list string) i cells :
  URL_COLUMN ∈ cols ->
  exists url, getitem (series_of cols i cells) URL_COLUMN = Return url.
Proof.
  intros Hin. unfold getitem, series_of. cbn.
  destruct (assoc_imap URL_COLUMN (fun j _ => default NaN (cells !! j))
              cols Hin) as [url ->].
  by exists url.
Qed.

Lemma iterrows_lookup df j row :
  iterrows df !! j = Some row ->
  name row = j /\
  exists url, URL_COLUMN ∈ columns df ->
              getitem row URL_COLUMN = Return url.
Proof.
  unfold iterrows. rewrite list_lookup_imap.
  destruct (data df !! j) as [cells|]; [|done]. intros [= <-].
  split; [done|].
  destruct (decide (URL_COLUMN ∈ columns df)) as [Hin | Hout].
  - destruct (getitem_present _ j cells Hin) as [url Hurl]. by exists url.
  - by exists NaN.
Qed.

(** Resuming a task that was just put at position [i]. *)
Lemma resume_inserted net i (l : list task) sv h c good bad exc tr :
  i < length l ->
  resume net i (mkState sv (<[i := mkTask h (Running c)]> l) good bad exc tr) =
    match c with
    | Ret a =>
        mkState sv (<[i := mkTask h (Finished (Return a))]> l) good bad exc tr
    | Raise e =>
        mkState sv (<[i := mkTask h (Finished (Raised e))]> l) good bad
          (match exc with Some e0 => Some e0 | None => Some e end) tr
    | Acquire k =>
        match sv with
        | O => mkState sv (<[i := mkTask h (Running c)]> l) good bad exc tr
        | S v =>
            mkState v (<[i := mkTask (S h) (Running k)]> l) good bad exc
              (tr ++ [EvAcquire])
        end
    | Release k =>
        mkState (S sv) (<[i := mkTask (pred h) (Running k)]> l) good bad exc
          (tr ++ [EvRelease])
    | Get url k =>
        mkState sv (<[i := mkTask h (Running k)]> l) good bad exc
          (tr ++ [EvGet url])
    | Response k =>
        mkState sv (<[i := mkTask h (Running (k (net i)))]> l) good bad exc
          (tr ++ [EvAnswer (net i)])
    | Sleep d k =>
        mkState sv (<[i := mkTask h (Running k)]> l) good bad exc
          (tr ++ [EvSleep d])
    | AppendGood row k =>
        mkState sv (<[i := mkTask h (Running k)]> l) (good ++ [row]) bad exc
          (tr ++ [EvAppendGood row])
    | AppendBad row k =>
        mkState sv (<[i := mkTask h (Running k)]> l) good (bad ++ [row]) exc
          (tr ++ [EvAppendBad row])
    end.
Proof.
  intros Hi. unfold resume. cbn [tasks].
  rewrite list_lookup_insert_eq by done.
  destruct c; try destruct sv;
    unfold set_task, log, set_sem, push_good, push_bad, note_exception;
    cbn [tasks sem_value good_rows bad_rows first_exception trace];
    by rewrite ?list_insert_insert_eq.
Qed.

Lemma resume_finished net i (l : list task) sv h r good bad exc tr :
  i < length l ->
  resume net i (mkState sv (<[i := mkTask h (Finished r)]> l) good bad exc tr) =
    mkState sv (<[i := mkTask h (Finished r)]> l) good bad exc tr.
Proof.
  intros Hi. unfold resume. cbn [tasks].
  by rewrite list_lookup_insert_eq by done.
Qed.

(** A task of [check_urls] that finds a permit and is resumed seven times
    in a row runs to its end and leaves its row in the list that the
    answer to its request selects. *)
Lemma run_probe_alone net i st row url v :
  tasks st !! i = Some (mkTask 0 (Running (process_row row))) ->
  getitem row URL_COLUMN = Return url ->
  sem_value st = S v ->
  exists tr,
    run_loop net (replicate 7 i) st =
      mkState (S v) (<[i := finished_task]> (tasks st))
        (good_rows st ++ (if probe_ok (net i) then [row] else []))
        (bad_rows st ++ (if probe_ok (net i) then [] else [row]))
        (first_exception st) tr.
Proof.
  intros Hi Hurl Hsem.
  pose proof (lookup_lt_Some _ _ _ Hi) as Hlt.
  destruct st as [sv l good bad exc tr]. cbn in Hi, Hsem, Hlt |- *. subst sv.
  set (target := <[i := finished_task]> l).
  rewrite <- (list_insert_id l i _ Hi).
  unfold process_row. rewrite Hurl.
  unfold run_loop, probe_ok. cbn [replicate foldl].
  cbn [check_url async_with_semaphore async_with_get try_except releasing bind].
  do 3 (rewrite resume_inserted by done; cbn [pred]).
  destruct (net i) as [response | e]; cbn [bind try_except releasing].
  - do 2 (rewrite resume_inserted by done; cbn [pred]).
    destruct ((200 <=? status response)%Z && (status response <? 300)%Z);
      do 2 (rewrite resume_inserted by done);
      rewrite app_nil_r; by eexists.
  - do 3 (rewrite resume_inserted by done; cbn [pred]).
    rewrite resume_finished by done.
    rewrite app_nil_r; by eexists.
Qed.

Lemma one_by_one_S j : one_by_one (S j) = one_by_one j ++ replicate 7 j.
Proof.
  unfold one_by_one. rewrite seq_S, bind_app. cbn [mbind list_bind].
  by rewrite app_nil_r.
Qed.

Lemma spawn_lookup df j row :
  iterrows df !! j = Some row ->
  spawn df !! j = Some (mkTask 0 (Running (process_row row))).
Proof. intros Hj. unfold spawn. by rewrite list_lookup_fmap, Hj. Qed.

Lemma passed_snoc net rows row :
  passed net (rows ++ [row]) =
    passed net rows ++ (if probe_ok (net (name row)) then [row] else []).
Proof.
  unfold passed. rewrite filter_app. f_equal.
  destruct (probe_ok (net (name row))) eqn:Hok.
  - by rewrite filter_cons_True.
  - rewrite filter_cons_False; [done|]. by rewrite Hok.
Qed.

Lemma failed_snoc net rows row :
  failed net (rows ++ [row]) =
    failed net rows ++ (if probe_ok (net (name row)) then [] else [row]).
Proof.
  unfold failed. rewrite filter_app. f_equal.
  destruct (probe_ok (net (name row))) eqn:Hok.
  - rewrite filter_cons_False; [done|]. by rewrite Hok.
  - by rewrite filter_cons_True.
Qed.

(** After the first [j] tasks have been run one by one, they have
    finished, the semaphore is as it was, and the two lists hold the first
    [j] rows, split by the answers. *)
Lemma one_by_one_prefix df net sem j :
  URL_COLUMN ∈ columns df ->
  0 < sem ->
  j <= length (iterrows df) ->
  exists tr,
    run_loop net (one_by_one j) (check_urls_start df sem) =
      mkState sem (replicate j finished_task ++ drop j (spawn df))
        (passed net (take j (iterrows df)))
        (failed net (take j (iterrows df))) None tr.
Proof.
  intros Hcol Hsem. induction j as [|j IH]; intros Hj.
  - exists []. by rewrite drop_0.
  - destruct IH as [tr IH]; [lia|].
    destruct (lookup_lt_is_Some_2 (iterrows df) j) as [row Hrow]; [lia|].
    destruct (iterrows_lookup _ _ _ Hrow) as [Hname [url Hurl]].
    specialize (Hurl Hcol).
    destruct sem as [|v]; [lia|].
    rewrite one_by_one_S, run_loop_app, IH.
    pose proof (spawn_lookup _ _ _ Hrow) as Hspawn.
    edestruct (run_probe_alone net j
                 (mkState (S v) (replicate j finished_task ++ drop j (spawn df))
                    (passed net (take j (iterrows df)))
                    (failed net (take j (iterrows df))) None tr)
                 row url v) as [tr' ->]; [|done|done|].
    { cbn [tasks]. rewrite lookup_app_r by by rewrite length_replicate.
      rewrite length_replicate, Nat.sub_diag, lookup_drop, Nat.add_0_r.
      exact Hspawn. }
    exists tr'. cbn [tasks good_rows bad_rows first_exception].
    rewrite insert_app_r_alt by by rewrite length_replicate.
    rewrite length_replicate, Nat.sub_diag, (drop_S _ _ _ Hspawn).
    cbn [insert list_insert].
    rewrite (take_S_r _ _ _ Hrow), passed_snoc, failed_snoc, Hname.
    by rewrite replicate_S_end, <- app_assoc.
Qed.

Lemma replicate_finished_returned n :
  forallb returned (replicate n finished_task) = true.
Proof. induction n as [|n IH]; [done|]. cbn. exact IH. Qed.

(** For a frame with the URL column and a semaphore with a permit left,
    [check_urls] returns under the schedule [one_by_one]: the rows whose
    request got a 2xx answer, and the others, both in the order of the
    frame. *)
Lemma check_urls_one_by_one df net sem :
  URL_COLUMN ∈ columns df ->
  0 < sem ->
  check_urls df net sem (one_by_one (length (iterrows df))) =
    Some (Return (passed net (iterrows df), failed net (iterrows df))).
Proof.
  intros Hcol Hsem. unfold check_urls.
  destruct (one_by_one_prefix df net sem (length (iterrows df)) Hcol Hsem)
    as [tr ->]; [done|].
  unfold gather. cbn [first_exception tasks good_rows bad_rows].
  replace (length (iterrows df)) with (length (spawn df))
    by (unfold spawn; by rewrite length_fmap).
  rewrite drop_all, app_nil_r, replicate_finished_returned.
  replace (length (spawn df)) with (length (iterrows df))
    by (unfold spawn; by rewrite length_fmap).
  by rewrite firstn_all.
Qed.

(** * Rows go to the list that the answer selects *)

Lemma process_row_sorts net row :
  sorts_right (verdict net) (net (name row)) (process_row row).
Proof.
  unfold process_row. destruct (getitem row URL_COLUMN) as [url | e]; [|done].
  cbn. unfold verdict, probe_ok.
  destruct (net (name row)) as [response | e] eqn:Hans; cbn; rewrite ?Hans;
    [|done].
  destruct (_ && _) eqn:Hrange; cbn; by rewrite Hans.
Qed.

(** Resuming a task keeps it sorting right and adds to a list only a row
    with the verdict of that list. *)
Lemma resume_verdicts net j st :
  resume net j st = st \/
  exists t t', tasks st !! j = Some t /\
    tasks (resume net j st) = <[j := t']> (tasks st) /\
    (task_sorts net j t ->
     task_sorts net j t' /\
     (forall row, row ∈ good_rows (resume net j st) ->
        row ∈ good_rows st \/ verdict net row = true) /\
     (forall row, row ∈ bad_rows (resume net j st) ->
        row ∈ bad_rows st \/ verdict net row = false)).
Proof.
  resume_cases j st; try (by left); right;
    eexists _, _; (split; [reflexivity|]); (split; [reflexivity|]);
    unfold task_sorts; cbn; intros Hsorts;
    try (split; [done|]; split; intros row' Hin; by left).
  - destruct Hsorts as [Hv Hk]. split; [done|].
    split; intros row' Hin; [|by left].
    apply elem_of_app in Hin as [Hin | ->%list_elem_of_singleton];
      [by left | by right].
  - destruct Hsorts as [Hv Hk]. split; [done|].
    split; intros row' Hin; [by left|].
    apply elem_of_app in Hin as [Hin | ->%list_elem_of_singleton];
      [by left | by right].
Qed.

Lemma resume_sorted net j st :
  rows_sorted net st -> rows_sorted net (resume net j st).
Proof.
  intros (Htasks & Hgood & Hbad).
  destruct (resume_verdicts net j st) as [-> | (t & t' & Hj & Hnew & Hstep)];
    [done|].
  destruct (Hstep (Htasks j t Hj)) as (Ht' & Hg' & Hb').
  split; [|split].
  - intros i u. rewrite Hnew.
    intros [(-> & -> & _) | (Hne & Hi)]%list_lookup_insert_Some;
      [done | by apply Htasks].
  - apply Forall_forall. intros row Hin.
    destruct (Hg' row Hin) as [Hold | Hv]; [|done].
    by eapply Forall_forall in Hgood.
  - apply Forall_forall. intros row Hin.
    destruct (Hb' row Hin) as [Hold | Hv]; [|done].
    by eapply Forall_forall in Hbad.
Qed.

Lemma spawn_lookup_inv df i t :
  spawn df !! i = Some t ->
  exists row, iterrows df !! i = Some row /\ name row = i /\
              t = mkTask 0 (Running (process_row row)).
Proof.
  unfold spawn. rewrite list_lookup_fmap.
  destruct (iterrows df !! i) as [row|] eqn:Hrow; [|done].
  intros [= <-]. exists row. split; [done|]. split; [|done].
  unfold iterrows in Hrow. rewrite list_lookup_imap in Hrow.
  destruct (data df !! i); [|done]. by injection Hrow as <-.
Qed.

Lemma check_urls_start_sorted df net sem :
  rows_sorted net (check_urls_start df sem).
Proof.
  split; [|by split].
  intros i t (row & _ & <- & ->)%spawn_lookup_inv.
  apply process_row_sorts.
Qed.

Lemma filter_all {A : Type} (P : A -> Prop) `{!forall x, Decision (P x)}
    (l : list A) :
  Forall P l -> filter P l = l.
Proof.
  induction 1 as [|x l Hx _ IH]; [done|].
  by rewrite filter_cons_True, IH.
Qed.

Lemma filter_none {A : Type} (P : A -> Prop) `{!forall x, Decision (P x)}
    (l : list A) :
  Forall (fun x => ~ P x) l -> filter P l = [].
Proof.
  induction 1 as [|x l Hx _ IH]; [done|].
  by rewrite filter_cons_False.
Qed.

Lemma run_loop_sorted df net sem sched :
  rows_sorted net (run_loop net sched (check_urls_start df sem)).
Proof.
  apply (run_loop_invariant (rows_sorted net)).
  - intros. by apply resume_sorted.
  - apply check_urls_start_sorted.
Qed.

(** Two lists that together hold [rows], one with accepted rows only and
    one with rejected rows only, are the accepted and the rejected rows. *)
Lemma sorted_partition net (rows good bad : list Row) :
  good ++ bad ≡ₚ rows ->
  Forall (fun row => verdict net row = true) good ->
  Forall (fun row => verdict net row = false) bad ->
  good ≡ₚ passed net rows /\ bad ≡ₚ failed net rows.
Proof.
  unfold verdict. intros Hperm Hgood Hbad. split.
  - unfold passed. rewrite <- Hperm, filter_app.
    rewrite (filter_all _ good) by done.
    rewrite (filter_none _ bad); [by rewrite app_nil_r|].
    eapply Forall_impl; [exact Hbad|]. cbn. intros row ->. done.
  - unfold failed. rewrite <- Hperm, filter_app.
    rewrite (filter_all _ bad) by done.
    rewrite (filter_none _ good); [done|].
    eapply Forall_impl; [exact Hgood|]. cbn. intros row ->. done.
Qed.

(** X1: The rows that [check_urls] returns as good are those whose request got
    a 2xx answer, the rows it returns as bad are the others, whatever the
    schedule. *)
Theorem check_urls_sorts_by_answer
    (df : DataFrame) (net : nat -> http_answer) (sem : nat)
    (sched : list nat) (good bad : list Row) :
  check_urls df net sem sched = Some (Return (good, bad)) ->
  good ≡ₚ passed net (iterrows df) /\
  bad ≡ₚ failed net (iterrows df) /\
  (forall row, row ∈ good -> probe_ok (net (name row)) = true) /\
  (forall row, row ∈ bad -> probe_ok (net (name row)) = false).
Proof.
  intros Hret.
  pose proof (check_urls_permutation _ _ _ _ _ _ Hret) as Hperm.
  apply check_urls_returns in Hret as (-> & -> & _).
  destruct (run_loop_sorted df net sem sched) as (_ & Hgood & Hbad).
  destruct (sorted_partition net _ _ _ Hperm Hgood Hbad) as [Hp Hf].
  split; [done|]. split; [done|]. split.
  - intros row Hin. by eapply Forall_forall in Hgood.
  - intros row Hin. by eapply Forall_forall in Hbad.
Qed.

Lemma check_urls_sorts_by_answer_witness :
  [Examples.R1; Examples.R0] ≡ₚ passed Examples.all_200 (iterrows Examples.df2).
Proof.
  eapply (check_urls_sorts_by_answer Examples.df2 Examples.all_200
            max_concurrency Examples.second_first).
  vm_compute; reflexivity.
Defined.

(** * The semaphore after the run *)

Lemma returned_hold_nothing (l : list task) :
  Forall task_balanced l -> forallb returned l = true ->
  sum_list (held <$> l) = 0.
Proof.
  induction 1 as [|t l Ht _ IH]; [done|].
  cbn [forallb]. intros [Hret Hrest]%andb_true_iff. csimpl.
  rewrite (IH Hrest). unfold returned in Hret. unfold task_balanced in Ht.
  destruct (phase_of t) as [c | r]; [done | lia].
Qed.

(** X4: When [check_urls] returns, every permit is back: the semaphore has the
    value it had when [check_urls] was called and no task holds a permit. *)
Theorem check_urls_gives_permits_back
    (df : DataFrame) (net : nat -> http_answer) (sem : nat)
    (sched : list nat) (good bad : list Row) :
  check_urls df net sem sched = Some (Return (good, bad)) ->
  sem_value (run_loop net sched (check_urls_start df sem)) = sem /\
  permits_held (run_loop net sched (check_urls_start df sem)) = 0 /\
  holding (run_loop net sched (check_urls_start df sem)) = [].
Proof.
  intros (_ & _ & _ & Hret)%check_urls_returns. cbn zeta in Hret.
  set (st := run_loop net sched (check_urls_start df sem)) in *.
  assert (Forall task_balanced (tasks st)) as Hall.
  { apply run_loop_Forall; [apply task_balanced_step | apply spawn_balanced]. }
  assert (permits_held st = 0) as Hnone
    by apply (returned_hold_nothing _ Hall Hret).
  assert (sem_value st + permits_held st = sem) as Hsum.
  { unfold st. rewrite run_loop_conserves by apply spawn_balanced.
    unfold permits_held. cbn. rewrite spawn_holds_nothing. lia. }
  split; [lia|]. split; [done|].
  apply length_zero_iff_nil.
  pose proof (holders_le_permits (tasks st)) as Hle.
  unfold permits_held in Hnone. unfold holding. lia.
Qed.

Lemma check_urls_gives_permits_back_witness :
  sem_value (run_loop Examples.net_200_404_timeout (one_by_one 3)
               (check_urls_start Examples.df3 2)) = 2.
Proof.
  eapply (check_urls_gives_permits_back Examples.df3
            Examples.net_200_404_timeout 2 (one_by_one 3)).
  vm_compute; reflexivity.
Defined.

(** * No exception when the column is there *)

Lemma process_row_quiet row url :
  getitem row URL_COLUMN = Return url -> quiet (process_row row).
Proof.
  intros Hurl. unfold process_row. rewrite Hurl. cbn.
  intros [response | e]; cbn; [|done]. by destruct (_ && _).
Qed.

Lemma task_quiet_step t t' : task_quiet t -> task_step t t' -> task_quiet t'.
Proof.
  unfold task_quiet. intros Hq Hstep. destruct Hstep; cbn in *; done.
Qed.

Lemma iterrows_have_url df row :
  URL_COLUMN ∈ columns df -> row ∈ iterrows df ->
  exists url, getitem row URL_COLUMN = Return url.
Proof.
  intros Hcol [j Hj]%list_elem_of_lookup_1.
  destruct (iterrows_lookup _ _ _ Hj) as [_ [url Hurl]]. eauto.
Qed.

Lemma spawn_quiet df :
  URL_COLUMN ∈ columns df -> Forall task_quiet (spawn df).
Proof.
  intros Hcol. unfold spawn. apply Forall_fmap, Forall_forall.
  intros row Hrow. destruct (iterrows_have_url _ _ Hcol Hrow) as [url Hurl].
  by apply (process_row_quiet _ url).
Qed.

Lemma resume_no_exception net i st :
  Forall task_quiet (tasks st) ->
  first_exception (resume net i st) = first_exception st.
Proof.
  intros Hall. resume_cases i st; try done.
  by apply (Forall_lookup_1 _ _ _ _ Hall) in Hlookup.
Qed.

Lemma run_loop_quiet df net sem sched :
  URL_COLUMN ∈ columns df ->
  Forall task_quiet (tasks (run_loop net sched (check_urls_start df sem))) /\
  first_exception (run_loop net sched (check_urls_start df sem)) = None.
Proof.
  intros Hcol.
  apply (run_loop_invariant
           (fun s => Forall task_quiet (tasks s) /\ first_exception s = None)).
  - intros i st [Hall Hnone]. split.
    + by apply resume_Forall; [apply task_quiet_step|].
    + by rewrite resume_no_exception.
  - split; [by apply spawn_quiet | done].
Qed.

(** X7: The guard of [process_csv] makes the lookup of [process_row] safe: for
    a frame that has the URL column, no task ever ends with an exception
    and [check_urls] never raises, whatever the network answers. *)
Theorem check_urls_never_raises
    (df : DataFrame) (net : nat -> http_answer) (sem : nat)
    (sched : list nat) :
  URL_COLUMN ∈ columns df ->
  (forall e, check_urls df net sem sched <> Some (Raised e)) /\
  (forall i t e,
     tasks (run_loop net sched (check_urls_start df sem)) !! i = Some t ->
     phase_of t <> Finished (Raised e)).
Proof.
  intros Hcol.
  destruct (run_loop_quiet df net sem sched Hcol) as [Hall Hnone]. split.
  - intros e. unfold check_urls, gather. rewrite Hnone.
    by destruct (forallb _ _).
  - intros i t e Hi Hphase.
    apply (Forall_lookup_1 _ _ _ _ Hall) in Hi.
    unfold task_quiet in Hi. by rewrite Hphase in Hi.
Qed.

Lemma check_urls_never_raises_witness :
  check_urls Examples.df3 Examples.net_200_404_timeout 2 [2; 2; 2; 0] <>
    Some (Raised TimeoutError).
Proof.
  apply (check_urls_never_raises Examples.df3 Examples.net_200_404_timeout
           2 [2; 2; 2; 0]).
  repeat constructor.
Defined.

(** * Requests are sent under a permit *)

Lemma process_row_requests_holding (row : Row) :
  requests_holding 0 (process_row row).
Proof.
  unfold process_row. destruct (getitem row URL_COLUMN) as [url | e]; [|done].
  cbn. split; [lia|]. split; [lia|].
  intros [response | e]; cbn; [|done]. by destruct (_ && _).
Qed.

Lemma task_requests_holding_step t t' :
  task_requests_holding t -> task_step t t' -> task_requests_holding t'.
Proof.
  unfold task_requests_holding. intros Hr Hstep.
  destruct Hstep; cbn in *; try done.
  - by destruct Hr.
  - by destruct Hr as [_ Hk].
Qed.

Lemma spawn_requests_holding df : Forall task_requests_holding (spawn df).
Proof.
  unfold spawn. apply Forall_fmap, Forall_forall. intros row _.
  apply process_row_requests_holding.
Qed.

Lemma length_filter_mono {A : Type} (P Q : A -> Prop)
    `{!forall x, Decision (P x)} `{!forall x, Decision (Q x)} (l : list A) :
  Forall (fun x => P x -> Q x) l ->
  length (filter P l) <= length (filter Q l).
Proof.
  induction 1 as [|x l Hx _ IH]; [done|].
  rewrite !filter_cons. destruct (decide (P x)) as [HP | HP].
  - rewrite decide_True by auto. cbn. lia.
  - destruct (decide (Q x)); cbn; lia.
Qed.

(** X5: At every point of every run of [check_urls], a task whose request is
    in flight holds a permit, so no more requests are in flight than the
    semaphore had permits when [check_urls] was called. *)
Theorem requests_in_flight_bounded
    (df : DataFrame) (net : nat -> http_answer) (sem : nat)
    (sched : list nat) :
  length (in_flight (run_loop net sched (check_urls_start df sem))) <= sem /\
  (forall i t,
     tasks (run_loop net sched (check_urls_start df sem)) !! i = Some t ->
     awaits_answer t = true -> 0 < held t).
Proof.
  set (st := run_loop net sched (check_urls_start df sem)).
  assert (Forall task_requests_holding (tasks st)) as Hall.
  { apply run_loop_Forall;
      [apply task_requests_holding_step | apply spawn_requests_holding]. }
  assert (forall t, task_requests_holding t -> awaits_answer t = true ->
                    0 < held t) as Hheld.
  { intros [h [[]|r]]; unfold task_requests_holding, awaits_answer; cbn;
      try done. by intros [Hpos _]. }
  split.
  - assert (sem_value st + permits_held st = sem) as Hsum.
    { unfold st. rewrite run_loop_conserves by apply spawn_balanced.
      unfold permits_held. cbn. rewrite spawn_holds_nothing. lia. }
    pose proof (holders_le_permits (tasks st)) as Hle.
    assert (length (in_flight st) <=
            length (filter (fun t => 0 < held t) (tasks st))) as Hmono.
    { apply length_filter_mono. eapply Forall_impl; [exact Hall|].
      intros t Ht. by apply Hheld. }
    unfold permits_held in Hsum. lia.
  - intros i t Hi. apply Hheld. by apply (Forall_lookup_1 _ _ _ _ Hall) in Hi.
Qed.

(** * One request for every row *)

Lemma process_row_gets_left (row : Row) :
  gets_left (process_row row) (url_of row).
Proof.
  unfold process_row, url_of.
  destruct (getitem row URL_COLUMN) as [url | e]; [|done].
  cbn. exists []. split; [done|].
  intros [response | e]; cbn; [|done]. by destruct (_ && _).
Qed.

Lemma spawn_gets_left df :
  Forall2 task_gets_left (spawn df) (url_of <$> iterrows df).
Proof.
  unfold spawn. apply Forall2_fmap, Forall_Forall2_diag, Forall_forall.
  intros row _. apply process_row_gets_left.
Qed.

(** Resuming a task moves at most one URL from what the task has left to
    request to the requests sent. *)
Lemma resume_requests net i st :
  resume net i st = st \/
  exists t t', tasks st !! i = Some t /\
    tasks (resume net i st) = <[i := t']> (tasks st) /\
    forall urls, task_gets_left t urls ->
      exists urls', task_gets_left t' urls' /\
        urls_requested (trace (resume net i st)) ++ urls' =
          urls_requested (trace st) ++ urls.
Proof.
  resume_cases i st; try (by left); right;
    eexists _, _; (split; [reflexivity|]); (split; [reflexivity|]);
    unfold task_gets_left, urls_requested; cbn; intros urls Hurls;
    rewrite ?omap_app; cbn; rewrite ?app_nil_r;
    try (by exists urls).
  destruct Hurls as (urls' & -> & Hk). exists urls'. split; [done|].
  by rewrite <- app_assoc.
Qed.

Lemma resume_requests_accounted urls net i st :
  requests_accounted urls st -> requests_accounted urls (resume net i st).
Proof.
  intros (owed & Hall & Hperm).
  destruct (resume_requests net i st) as [-> | (t & t' & Hi & Htasks & Hmove)].
  { by exists owed. }
  destruct (Forall2_lookup_l _ _ _ _ _ Hall Hi) as (us & Hus & Ht).
  destruct (Hmove us Ht) as (us' & Ht' & Heq).
  destruct (concat_insert_perm _ _ _ Hus) as (others & Hold & Hnew).
  exists (<[i := us']> owed). split.
  - rewrite Htasks. by apply Forall2_insert.
  - by rewrite Hnew, app_assoc, Heq, <- app_assoc, <- Hold.
Qed.

Lemma finished_nothing_left (ts : list task) (owed : list (list cell)) :
  Forall2 task_gets_left ts owed -> forallb finished ts = true ->
  concat owed = [].
Proof.
  induction 1 as [|t us ts owed Ht _ IH]; [done|].
  cbn. intros [Hfin Hrest]%andb_true_iff.
  rewrite (IH Hrest), app_nil_r.
  unfold finished in Hfin. unfold task_gets_left in Ht.
  by destruct (phase_of t).
Qed.

Lemma requests_issued_length (t : list event) :
  requests_issued t = length (urls_requested t).
Proof.
  unfold requests_issued, urls_requested.
  induction t as [|ev t IH]; [done|].
  destruct ev; cbn; case_decide; try done; cbn;
    first [exact IH | apply (f_equal S), IH].
Qed.

Lemma url_of_bind_length (rows : list Row) :
  length (rows ≫= url_of) <= length rows.
Proof.
  induction rows as [|row rows IH]; [done|].
  rewrite bind_cons, length_app. unfold url_of at 1.
  destruct (getitem row URL_COLUMN); cbn; lia.
Qed.

Lemma url_of_bind_length_present df :
  URL_COLUMN ∈ columns df ->
  length (iterrows df ≫= url_of) = length (iterrows df).
Proof.
  intros Hcol.
  assert (Forall (fun row => exists url, getitem row URL_COLUMN = Return url)
            (iterrows df)) as Hall.
  { apply Forall_forall. intros row. by apply iterrows_have_url. }
  induction Hall as [|row rows [url Hurl] _ IH]; [done|].
  rewrite bind_cons, length_app. unfold url_of at 1. rewrite Hurl. cbn.
  by rewrite IH.
Qed.

Lemma run_loop_requests_accounted df net sem sched :
  requests_accounted (iterrows df ≫= url_of)
    (run_loop net sched (check_urls_start df sem)).
Proof.
  apply (run_loop_invariant (requests_accounted (iterrows df ≫= url_of))).
  - intros. by apply resume_requests_accounted.
  - exists (url_of <$> iterrows df). split; [apply spawn_gets_left|].
    cbn. induction (iterrows df) as [|row rows IH]; [done|].
    csimpl. by rewrite IH.
Qed.

Lemma requests_when_finished urls st :
  requests_accounted urls st -> forallb finished (tasks st) = true ->
  urls_requested (trace st) ≡ₚ urls.
Proof.
  intros (owed & Hall & Hperm) Hfin.
  by rewrite (finished_nothing_left _ _ Hall Hfin), app_nil_r in Hperm.
Qed.

(** X6: No retry: at every point of every run of [check_urls] the requests sent
    so far are requests for the URLs of distinct rows, so there are at most
    as many as rows; once every task has finished, the requests sent are
    exactly one for the URL of every row, and as many as rows when the
    frame has the URL column. *)
Theorem one_request_per_row
    (df : DataFrame) (net : nat -> http_answer) (sem : nat)
    (sched : list nat) :
  urls_requested (trace (run_loop net sched (check_urls_start df sem)))
    ⊆+ iterrows df ≫= url_of /\
  requests_issued (trace (run_loop net sched (check_urls_start df sem)))
    <= length (iterrows df) /\
  (forallb finished (tasks (run_loop net sched (check_urls_start df sem)))
     = true ->
   urls_requested (trace (run_loop net sched (check_urls_start df sem)))
     ≡ₚ iterrows df ≫= url_of /\
   (URL_COLUMN ∈ columns df ->
    requests_issued (trace (run_loop net sched (check_urls_start df sem)))
      = length (iterrows df))).
Proof.
  set (st := run_loop net sched (check_urls_start df sem)).
  pose proof (run_loop_requests_accounted df net sem sched) as Hacc.
  fold st in Hacc.
  assert (urls_requested (trace st) ⊆+ iterrows df ≫= url_of) as Hsub.
  { destruct Hacc as (owed & _ & <-). by apply submseteq_inserts_r. }
  split; [done|]. split.
  - rewrite requests_issued_length.
    etrans; [by apply submseteq_length|]. apply url_of_bind_length.
  - intros Hfin. pose proof (requests_when_finished _ _ Hacc Hfin) as Hperm.
    split; [done|]. intros Hcol.
    by rewrite requests_issued_length, Hperm, url_of_bind_length_present.
Qed.

(** * [check_urls] on a frame without the URL column *)

Lemma assoc_imap_None (label : string) (g : nat -> string -> cell)
    (cols : list string) :
  label ∉ cols -> assoc label (imap (fun j c => (c, g j c)) cols) = None.
Proof.
  revert g. induction cols as [|c cols IH]; intros g Hout; [done|].
  apply not_elem_of_cons in Hout as [Hne Hout]. cbn.
  rewrite decide_False by done. apply (IH (fun j => g (S j)) Hout).
Qed.

Lemma process_row_missing df row :
  URL_COLUMN ∉ columns df -> row ∈ iterrows df ->
  process_row row = Raise (KeyError URL_COLUMN).
Proof.
  intros Hout [j Hj]%list_elem_of_lookup_1.
  unfold iterrows in Hj. rewrite list_lookup_imap in Hj.
  destruct (data df !! j) as [cells|]; [|done]. injection Hj as <-.
  unfold process_row, getitem, series_of. cbn.
  by rewrite (assoc_imap_None URL_COLUMN
                (fun j _ => default NaN (cells !! j)) _ Hout).
Qed.

Lemma spawn_missing df :
  URL_COLUMN ∉ columns df -> Forall (fun t => t = raising_task) (spawn df).
Proof.
  intros Hout. unfold spawn. apply Forall_fmap, Forall_forall.
  intros row Hrow. cbn. unfold raising_task.
  by rewrite (process_row_missing df row).
Qed.

Lemma resume_only_key_errors sem net i st :
  only_key_errors sem st -> only_key_errors sem (resume net i st).
Proof.
  intros (Hsem & Hgood & Hbad & Htrace & Hexc & Hall). unfold resume.
  destruct (tasks st !! i) as [t|] eqn:Hi; [|done].
  destruct (Forall_lookup_1 _ _ _ _ Hall Hi) as [-> | [-> _]]; [|done].
  cbn. unfold only_key_errors. cbn.
  assert (match first_exception st with
          | Some e0 => Some e0
          | None => Some (KeyError URL_COLUMN)
          end = Some (KeyError URL_COLUMN)) as ->.
  { by destruct Hexc as [-> | ->]. }
  repeat split; try done; [by right|].
  apply Forall_insert; [|by right].
  eapply Forall_impl; [exact Hall|]. cbn. intros t [-> | [-> _]]; auto.
Qed.

Lemma resume_exception_sticky net i st e :
  first_exception st = Some e -> first_exception (resume net i st) = Some e.
Proof. intros He. resume_cases i st; cbn; by rewrite ?He. Qed.

Lemma run_loop_exception_sticky net sched st e :
  first_exception st = Some e ->
  first_exception (run_loop net sched st) = Some e.
Proof.
  apply (run_loop_invariant (fun s => first_exception s = Some e)).
  intros. by apply resume_exception_sticky.
Qed.

Lemma resume_length net i st :
  length (tasks (resume net i st)) = length (tasks st).
Proof.
  destruct (resume_task_step net i st) as [-> | (t & t' & _ & _ & ->)];
    [done|]. apply length_insert.
Qed.

Lemma run_loop_length net sched st :
  length (tasks (run_loop net sched st)) = length (tasks st).
Proof.
  apply (run_loop_invariant
           (fun s => length (tasks s) = length (tasks st))); [|done].
  intros i s <-. apply resume_length.
Qed.

Lemma spawn_length df : length (spawn df) = length (data df).
Proof. unfold spawn, iterrows. by rewrite length_fmap, length_imap. Qed.

(** Resuming one of the tasks of such a frame makes [gather] raise. *)
Lemma resume_raises_key_error sem net i st :
  only_key_errors sem st -> i < length (tasks st) ->
  first_exception (resume net i st) = Some (KeyError URL_COLUMN).
Proof.
  intros (_ & _ & _ & _ & Hexc & Hall) Hi.
  destruct (lookup_lt_is_Some_2 _ _ Hi) as [t Ht]. unfold resume. rewrite Ht.
  destruct (Forall_lookup_1 _ _ _ _ Hall Ht) as [-> | [-> Hset]]; [|done].
  cbn. by destruct Hexc as [-> | ->].
Qed.

(** X8: Called on a frame that has rows and no URL column, [check_urls] never
    returns its two lists: it is pending until the loop runs one of the
    tasks and raises [KeyError] from then on.  No permit is taken, no
    request is sent, no row is appended. *)
Theorem check_urls_missing_column
    (df : DataFrame) (net : nat -> http_answer) (sem : nat)
    (sched : list nat) :
  URL_COLUMN ∉ columns df ->
  data df <> [] ->
  trace (run_loop net sched (check_urls_start df sem)) = [] /\
  sem_value (run_loop net sched (check_urls_start df sem)) = sem /\
  (check_urls df net sem sched = None \/
   check_urls df net sem sched = Some (Raised (KeyError URL_COLUMN))) /\
  (forall i, i ∈ sched -> i < length (data df) ->
     check_urls df net sem sched = Some (Raised (KeyError URL_COLUMN))).
Proof.
  intros Hout Hrows.
  assert (forall s, only_key_errors sem
                      (run_loop net s (check_urls_start df sem))) as Hinv.
  { intros s. apply (run_loop_invariant (only_key_errors sem)).
    - intros. by apply resume_only_key_errors.
    - repeat split; try done; [by left|].
      eapply Forall_impl; [by apply spawn_missing|]. cbn. auto. }
  destruct (Hinv sched) as (Hsem & _ & _ & Htrace & Hexc & Hall).
  split; [done|]. split; [done|]. split.
  - unfold check_urls, gather. destruct Hexc as [-> | ->]; [|by right].
    left.
    assert (forallb returned
              (tasks (run_loop net sched (check_urls_start df sem))) = false)
      as ->; [|done].
    pose proof (run_loop_length net sched (check_urls_start df sem)) as Hlen.
    cbn in Hlen. rewrite spawn_length in Hlen.
    destruct (tasks (run_loop net sched (check_urls_start df sem)))
      as [|t ts]; [by destruct (data df)|].
    apply Forall_cons in Hall as [[-> | [-> _]] _]; done.
  - intros i [s1 [s2 ->]]%list_elem_of_split Hi.
    unfold check_urls, gather.
    rewrite run_loop_app. cbn [run_loop foldl].
    fold (run_loop net s2
            (resume net i (run_loop net s1 (check_urls_start df sem)))).
    rewrite (run_loop_exception_sticky _ _ _ (KeyError URL_COLUMN)); [done|].
    apply (resume_raises_key_error sem); [apply Hinv|].
    rewrite run_loop_length. cbn. by rewrite spawn_length.
Qed.

Lemma check_urls_missing_column_witness :
  check_urls Examples.df_no_url Examples.all_200 max_concurrency [1] =
    Some (Raised (KeyError URL_COLUMN)).
Proof.
  destruct (check_urls_missing_column Examples.df_no_url Examples.all_200
              max_concurrency [1]) as (_ & _ & _ & Hraised).
  - apply df_no_url_lacks_column.
  - discriminate.
  - apply (Hraised 1); [repeat constructor | cbn; lia].
Defined.

(** * [check_urls] with a semaphore that has no permit *)

Lemma resume_blocked net i st :
  sem_value st = 0 ->
  Forall (fun t => exists k, t = mkTask 0 (Running (Acquire k))) (tasks st) ->
  resume net i st = st.
Proof.
  intros Hsem Hall. unfold resume.
  destruct (tasks st !! i) as [t|] eqn:Hi; [|done].
  destruct (Forall_lookup_1 _ _ _ _ Hall Hi) as [k ->]. by rewrite Hsem.
Qed.

Lemma spawn_waiting df :
  URL_COLUMN ∈ columns df ->
  Forall (fun t => exists k, t = mkTask 0 (Running (Acquire k))) (spawn df).
Proof.
  intros Hcol. unfold spawn. apply Forall_fmap, Forall_forall.
  intros row Hrow. destruct (iterrows_have_url _ _ Hcol Hrow) as [url Hurl].
  cbn. unfold process_row. rewrite Hurl. by eexists.
Qed.

(** X9: Called with a semaphore whose value is 0 on a frame that has rows,
    [check_urls] never returns: every task waits for a permit that no task
    can give back, and nothing else happens. *)
Theorem check_urls_without_permit
    (df : DataFrame) (net : nat -> http_answer) (sched : list nat) :
  URL_COLUMN ∈ columns df ->
  data df <> [] ->
  run_loop net sched (check_urls_start df 0) = check_urls_start df 0 /\
  check_urls df net 0 sched = None.
Proof.
  intros Hcol Hrows.
  assert (run_loop net sched (check_urls_start df 0) = check_urls_start df 0)
    as Hsame.
  { induction sched as [|i sched IH]; [done|]. cbn [run_loop foldl].
    rewrite resume_blocked; [exact IH | done | by apply spawn_waiting]. }
  split; [done|]. unfold check_urls. rewrite Hsame. unfold gather. cbn.
  pose proof (spawn_waiting df Hcol) as Hall.
  pose proof (spawn_length df) as Hlen.
  destruct (spawn df) as [|t ts]; [by destruct (data df)|].
  by apply Forall_cons in Hall as [[k ->] _].
Qed.

Lemma check_urls_without_permit_witness :
  check_urls Examples.df2 Examples.all_200 0 (one_by_one 2) = None.
Proof.
  apply (check_urls_without_permit Examples.df2 Examples.all_200
           (one_by_one 2)).
  - repeat constructor.
  - discriminate.
Defined.

(** * What [process_csv] writes *)

Lemma resume_loop_events net i st :
  Forall (fun ev => is_loop_event ev = true) (trace st) ->
  Forall (fun ev => is_loop_event ev = true) (trace (resume net i st)).
Proof.
  intros Hall. resume_cases i st; try done; cbn;
    apply Forall_app; split; try done; by repeat constructor.
Qed.

Lemma run_loop_loop_events df net sem sched :
  Forall (fun ev => is_loop_event ev = true)
    (trace (run_loop net sched (check_urls_start df sem))).
Proof.
  apply (run_loop_invariant
           (fun s => Forall (fun ev => is_loop_event ev = true) (trace s)));
    [|by constructor].
  intros. by apply resume_loop_events.
Qed.

Lemma loop_events_write_nothing (t : list event) :
  Forall (fun ev => is_loop_event ev = true) t -> files_written t = [].
Proof.
  intros Hall. unfold files_written. apply filter_none.
  eapply Forall_impl; [exact Hall|]. cbn. by intros [].
Qed.

Lemma returned_finished (ts : list task) :
  forallb returned ts = true -> forallb finished ts = true.
Proof.
  induction ts as [|t ts IH]; [done|]. cbn.
  intros [Ht Hts]%andb_true_iff. rewrite (IH Hts), andb_true_r.
  unfold returned in Ht. unfold finished. by destruct (phase_of t).
Qed.

Lemma gather_returned st :
  gather st = Some (Return tt) -> forallb returned (tasks st) = true.
Proof.
  unfold gather. destruct (first_exception st); [done|].
  by destruct (forallb returned (tasks st)).
Qed.

Lemma requests_issued_app (t1 t2 : list event) :
  requests_issued (t1 ++ t2) = requests_issued t1 + requests_issued t2.
Proof. unfold requests_issued. by rewrite filter_app, length_app. Qed.

Lemma requests_issued_cons (ev : event) (t : list event) :
  is_request ev = false -> requests_issued (ev :: t) = requests_issued t.
Proof.
  intros Hev. unfold requests_issued. rewrite filter_cons_False; [done|].
  by rewrite Hev.
Qed.

(** The events of a run of [process_csv] that goes through. *)
Lemma process_csv_completed read_csv df net sched :
  read_csv input_file = Return df ->
  URL_COLUMN ∈ columns df ->
  fst (process_csv read_csv net sched) = Some (Return tt) ->
  gather (run_loop net sched (check_urls_start df max_concurrency)) =
    Some (Return tt) /\
  snd (process_csv read_csv net sched) =
    EvReadCsv input_file ::
    trace (run_loop net sched (check_urls_start df max_concurrency)) ++
    [EvWriteCsv good_file
       (good_rows (run_loop net sched (check_urls_start df max_concurrency)));
     EvWriteCsv bad_file
       (bad_rows (run_loop net sched (check_urls_start df max_concurrency)));
     EvPrint MSG_DONE].
Proof.
  intros Hread Hcol. unfold process_csv. rewrite Hread.
  rewrite decide_True by done. cbn zeta.
  by destruct (gather _) as [[[]|e]|].
Qed.

(** X10: When [process_csv] goes through on a frame with the URL column, it has
    sent one request for every row and then written two files: first
    [good_file] with the rows whose request got a 2xx answer, then
    [bad_file] with the other rows; the last thing it does is print that
    it is done. *)
Theorem process_csv_writes_partition
    (read_csv : string -> outcome DataFrame) (df : DataFrame)
    (net : nat -> http_answer) (sched : list nat) :
  read_csv input_file = Return df ->
  URL_COLUMN ∈ columns df ->
  fst (process_csv read_csv net sched) = Some (Return tt) ->
  exists good bad,
    files_written (snd (process_csv read_csv net sched)) =
      [EvWriteCsv good_file good; EvWriteCsv bad_file bad] /\
    good ≡ₚ passed net (iterrows df) /\
    bad ≡ₚ failed net (iterrows df) /\
    requests_issued (snd (process_csv read_csv net sched)) =
      length (iterrows df) /\
    last (snd (process_csv read_csv net sched)) = Some (EvPrint MSG_DONE).
Proof.
  intros Hread Hcol Hdone.
  destruct (process_csv_completed _ _ _ _ Hread Hcol Hdone) as [Hg ->].
  set (st := run_loop net sched (check_urls_start df max_concurrency)) in *.
  exists (good_rows st), (bad_rows st).
  pose proof (run_loop_loop_events df net max_concurrency sched) as Hloop.
  fold st in Hloop.
  assert (check_urls df net max_concurrency sched =
            Some (Return (good_rows st, bad_rows st))) as Hret.
  { unfold check_urls. fold st. by rewrite Hg. }
  pose proof (check_urls_permutation _ _ _ _ _ _ Hret) as Hperm.
  destruct (run_loop_sorted df net max_concurrency sched) as (_ & Hgood & Hbad).
  destruct (sorted_partition net _ _ _ Hperm Hgood Hbad) as [Hp Hf].
  split; [|split; [done|split; [done|split]]].
  - unfold files_written.
    rewrite filter_cons_False by done. rewrite filter_app.
    fold (files_written (trace st)).
    by rewrite (loop_events_write_nothing _ Hloop).
  - rewrite requests_issued_cons by done.
    rewrite requests_issued_app.
    replace (requests_issued [EvWriteCsv good_file (good_rows st);
                              EvWriteCsv bad_file (bad_rows st);
                              EvPrint MSG_DONE]) with 0 by reflexivity.
    rewrite Nat.add_0_r, requests_issued_length.
    pose proof (run_loop_requests_accounted df net max_concurrency sched)
      as Hacc.
    fold st in Hacc.
    rewrite (requests_when_finished _ _ Hacc)
      by by apply returned_finished, gather_returned.
    by apply url_of_bind_length_present.
  - by rewrite app_comm_cons, !last_app.
Qed.

Lemma process_csv_writes_partition_witness :
  exists good bad,
    files_written
      (snd (process_csv (fun _ => Return Examples.df3)
              Examples.net_200_404_timeout (one_by_one 3))) =
      [EvWriteCsv good_file good; EvWriteCsv bad_file bad] /\
    good ≡ₚ passed Examples.net_200_404_timeout (iterrows Examples.df3).
Proof.
  destruct (process_csv_writes_partition (fun _ => Return Examples.df3)
              Examples.df3 Examples.net_200_404_timeout (one_by_one 3))
    as (good & bad & Hfiles & Hgood & _).
  - reflexivity.
  - repeat constructor.
  - vm_compute; reflexivity.
  - exists good, bad. split; [exact Hfiles | exact Hgood].
Defined.


(** X12: The only exception that [process_csv] lets through is the one of
    [pd.read_csv]. *)
Theorem process_csv_raises_iff_read_fails
    (read_csv : string -> outcome DataFrame)
    (net : nat -> http_answer) (sched : list nat) (e : exn) :
  fst (process_csv read_csv net sched) = Some (Raised e) <->
  read_csv input_file = Raised e.
Proof.
  unfold process_csv.
  destruct (read_csv input_file) as [df | e'] eqn:Hread.
  - split; [|done].
    destruct (decide (URL_COLUMN ∈ columns df)) as [Hcol | Hout]; [|done].
    cbn zeta.
    destruct (run_loop_quiet df net max_concurrency sched Hcol) as [_ Hnone].
    unfold gather. rewrite Hnone. by destruct (forallb _ _).
  - cbn. split; by intros [= ->].
Qed.

(** * What is done stays done *)




(** X2: For a frame with the URL column and a semaphore with at least one
    permit there is a schedule under which [check_urls] returns, the one
    that runs the tasks one after the other; what it returns then are the
    rows with a 2xx answer and the other rows, both in the order of the
    frame. *)
Theorem check_urls_returns_in_order
    (df : DataFrame) (net : nat -> http_answer) (sem : nat) :
  URL_COLUMN ∈ columns df ->
  0 < sem ->
  check_urls df net sem (one_by_one (length (iterrows df))) =
    Some (Return (passed net (iterrows df), failed net (iterrows df))) /\
  in_input_order df (passed net (iterrows df)) /\
  in_input_order df (failed net (iterrows df)).
Proof.
  intros Hcol Hsem. split; [by apply check_urls_one_by_one|].
  unfold in_input_order, passed, failed. split; apply sublist_filter.
Qed.

Lemma check_urls_returns_in_order_witness :
  check_urls Examples.df3 Examples.net_200_404_timeout 2
    (one_by_one (length (iterrows Examples.df3))) =
    Some (Return (passed Examples.net_200_404_timeout (iterrows Examples.df3),
                  failed Examples.net_200_404_timeout (iterrows Examples.df3))).
Proof.
  apply (check_urls_returns_in_order Examples.df3
           Examples.net_200_404_timeout 2).
  - repeat constructor.
  - lia.
Defined.

(** * No deadlock *)

Lemma process_row_acquires_once (row : Row) :
  acquires_once 0 (process_row row).
Proof.
  unfold process_row. destruct (getitem row URL_COLUMN) as [url | e]; [|done].
  cbn. split; [done|]. intros [response | e]; cbn; [|done].
  by destruct (_ && _).
Qed.

Lemma task_acquires_once_step t t' :
  task_acquires_once t -> task_step t t' -> task_acquires_once t'.
Proof.
  unfold task_acquires_once. intros Ha Hstep.
  destruct Hstep; cbn in *; try done. by destruct Ha.
Qed.

Lemma spawn_acquires_once df : Forall task_acquires_once (spawn df).
Proof.
  unfold spawn. apply Forall_fmap, Forall_forall. intros row _.
  apply process_row_acquires_once.
Qed.

Lemma resume_sound sem net i st :
  loop_sound sem st -> loop_sound sem (resume net i st).
Proof.
  intros (Hb & Ha & Hq & Hexc & Hsum). repeat split.
  - by apply resume_Forall; [apply task_balanced_step|].
  - by apply resume_Forall; [apply task_acquires_once_step|].
  - by apply resume_Forall; [apply task_quiet_step|].
  - by rewrite resume_no_exception.
  - by rewrite resume_conserves.
Qed.

Lemma check_urls_start_sound df sem :
  URL_COLUMN ∈ columns df -> loop_sound sem (check_urls_start df sem).
Proof.
  intros Hcol. repeat split; cbn.
  - apply spawn_balanced.
  - apply spawn_acquires_once.
  - by apply spawn_quiet.
  - unfold permits_held. cbn. rewrite spawn_holds_nothing. lia.
Qed.

Lemma moves_insert (w : nat -> task -> nat) (l : list task) i t t' :
  l !! i = Some t -> w i t = S (w i t') ->
  sum_list (imap w l) = S (sum_list (imap w (<[i := t']> l))).
Proof.
  revert w i. induction l as [|x l IH]; intros w [|i] Hi Hw; try done.
  - injection Hi as ->. csimpl. rewrite Hw. lia.
  - csimpl. rewrite (IH (w ∘ S) i Hi Hw). lia.
Qed.

Lemma moves_positive (w : nat -> task -> nat) (l : list task) :
  0 < sum_list (imap w l) -> exists i t, l !! i = Some t /\ 0 < w i t.
Proof.
  revert w. induction l as [|x l IH]; intros w; csimpl; [lia|].
  destruct (w 0 x) as [|n] eqn:Hx.
  - intros Hpos. destruct (IH (w ∘ S) Hpos) as (i & t & Hi & Ht).
    by exists (S i), t.
  - intros _. exists 0, x. split; [done|]. lia.
Qed.

Lemma holder_exists (l : list task) :
  0 < sum_list (held <$> l) -> exists i t, l !! i = Some t /\ 0 < held t.
Proof.
  induction l as [|x l IH]; csimpl; [lia|].
  destruct (held x) as [|n] eqn:Hx.
  - intros Hpos. destruct (IH Hpos) as (i & t & Hi & Ht). by exists (S i), t.
  - intros _. exists 0, x. split; [done|]. lia.
Qed.

(** A task that does not have to wait makes a move when it is resumed. *)
Lemma resume_moves net i st h c :
  tasks st !! i = Some (mkTask h (Running c)) ->
  match c with Acquire _ => 0 < sem_value st | _ => True end ->
  work_left net st = S (work_left net (resume net i st)).
Proof.
  intros Hi Hfree. unfold work_left, resume. rewrite Hi.
  destruct c; try (destruct (sem_value st); [lia|]); cbn;
    by apply (moves_insert _ _ _ _ _ Hi).
Qed.

(** As long as there is work left, some task can make a move. *)
Lemma some_task_moves sem net st :
  0 < sem -> loop_sound sem st -> 0 < work_left net st ->
  exists i, work_left net st = S (work_left net (resume net i st)).
Proof.
  intros Hsem (Hb & Ha & _ & _ & Hsum) Hwork.
  destruct (sem_value st) as [|v] eqn:Hv.
  - destruct (holder_exists (tasks st)) as (i & [h p] & Hi & Hheld).
    { unfold permits_held in Hsum. lia. }
    pose proof (Forall_lookup_1 _ _ _ _ Hb Hi) as Hbi.
    pose proof (Forall_lookup_1 _ _ _ _ Ha Hi) as Hai.
    unfold task_balanced in Hbi. unfold task_acquires_once in Hai.
    cbn in Hheld, Hbi, Hai. destruct p as [c | r]; [|lia].
    exists i. apply (resume_moves net i st h c Hi).
    destruct c; try done. destruct Hai as [-> _]. lia.
  - destruct (moves_positive _ _ Hwork) as (i & [h p] & Hi & Hmoves).
    unfold task_moves_left in Hmoves. cbn in Hmoves.
    destruct p as [c | r]; [|lia].
    exists i. apply (resume_moves net i st h c Hi).
    destruct c; try done. lia.
Qed.

Lemma no_moves_finished (w : nat -> task -> nat) (l : list task) :
  (forall i t, w i t = 0 -> finished t = true) ->
  sum_list (imap w l) = 0 -> forallb finished l = true.
Proof.
  revert w. induction l as [|x l IH]; intros w Hw; [done|].
  csimpl. intros Hsum. rewrite (Hw 0 x) by lia.
  apply (IH (w ∘ S)); [|lia]. intros i t. apply Hw.
Qed.

Lemma work_done_finished net (l : list task) :
  sum_list (imap (task_moves_left net) l) = 0 -> forallb finished l = true.
Proof.
  apply no_moves_finished. intros i [h [c | r]]; [|done].
  unfold task_moves_left. destruct c; cbn; lia.
Qed.

Lemma finished_quiet_returned (l : list task) :
  Forall task_quiet l -> forallb finished l = true ->
  forallb returned l = true.
Proof.
  induction 1 as [|t l Ht _ IH]; [done|]. cbn.
  intros [Hfin Hrest]%andb_true_iff. rewrite (IH Hrest), andb_true_r.
  unfold finished in Hfin. unfold returned. unfold task_quiet in Ht.
  by destruct (phase_of t) as [c | [a | e]].
Qed.

(** From every state of the loop the work can be brought to its end. *)
Lemma work_can_be_finished sem net n st :
  0 < sem -> loop_sound sem st -> work_left net st <= n ->
  exists more, work_left net (run_loop net more st) = 0 /\
               loop_sound sem (run_loop net more st).
Proof.
  intros Hsem. revert st. induction n as [|n IH]; intros st Hsound Hn.
  - exists []. split; [cbn; lia | done].
  - destruct (decide (work_left net st = 0)) as [Hzero | Hpos].
    { exists []. by split. }
    destruct (some_task_moves sem net st Hsem Hsound) as [i Hi]; [lia|].
    destruct (IH (resume net i st)) as (more & Hdone & Hsound');
      [by apply resume_sound | lia |].
    by exists (i :: more).
Qed.

(** X3: No deadlock: for a frame with the URL column and a semaphore with at
    least one permit, however far the loop has run, it can run on to the
    point where [check_urls] returns. *)
Theorem check_urls_can_always_return
    (df : DataFrame) (net : nat -> http_answer) (sem : nat)
    (sched : list nat) :
  URL_COLUMN ∈ columns df ->
  0 < sem ->
  exists more good bad,
    check_urls df net sem (sched ++ more) = Some (Return (good, bad)).
Proof.
  intros Hcol Hsem.
  assert (loop_sound sem (run_loop net sched (check_urls_start df sem)))
    as Hsound.
  { apply (run_loop_invariant (loop_sound sem)).
    - intros. by apply resume_sound.
    - by apply check_urls_start_sound. }
  destruct (work_can_be_finished sem net _ _ Hsem Hsound (Nat.le_refl _))
    as (more & Hdone & (_ & _ & Hq & Hexc & _)).
  exists more. eexists _, _. unfold check_urls, gather.
  rewrite run_loop_app, Hexc.
  by rewrite (finished_quiet_returned _ Hq (work_done_finished net _ Hdone)).
Qed.

Lemma check_urls_can_always_return_witness :
  exists more good bad,
    check_urls Examples.df2 Examples.all_200 1 ([0; 0; 1] ++ more) =
      Some (Return (good, bad)).
Proof.
  apply (check_urls_can_always_return Examples.df2 Examples.all_200 1
           [0; 0; 1]).
  - repeat constructor.
  - lia.
Defined.
